(** * p2p-chat-mobile: wire codec, deduplication cache and mesh router

    A shallow embedding of [src/protocol/P2PProtocol.js] and
    [src/network/P2PNetworkManager.js], with the properties the design
    document states about them.

    Conventions of the embedding:
    - JavaScript numbers that the program only uses as integers (type
      codes, hop budgets, message ids, lengths, timestamps) are [Z];
    - a [Uint8Array] / [Buffer] is a [list byte] that owns its storage
      (byte offset 0), which is how every caller of the codec creates one;
    - an operation that can throw returns a [completion];
    - the clock and the random source are inputs of the operations that
      read them;
    - a [Set] of ids is the list of its elements in insertion order, a
      [Map] keyed by peer key is a [gmap string _];
    - socket writes and application callbacks are recorded in an event
      trace returned next to the new state. *)

From Stdlib Require Import ZArith List Lia.
From Stdlib.Strings Require Import Byte.
From stdpp Require Import base option list strings pretty gmap fin_maps.

Local Open Scope Z_scope.

(** ** The JavaScript runtime pieces the program relies on *)

Module Js.

Inductive error : Type :=
| Error (msg : string)
| RangeError
| TypeError.

Inductive completion (A : Type) : Type :=
| Normal (a : A)
| Throw (e : error).
Arguments Normal {A} a.
Arguments Throw {A} e.

(** Sequencing: a [Throw] aborts what follows (stdpp's [x ← c; k]). *)
#[export] Instance completion_ret : MRet completion := fun A a => Normal a.
#[export] Instance completion_bind : MBind completion := fun A B k c =>
  match c with
  | Normal a => k a
  | Throw e => Throw e
  end.

(** Element conversion of [Uint8Array] and [DataView.setUint8]: the value
    modulo 2^8. *)
Definition ToUint8 (v : Z) : byte :=
  match Byte.of_N (Z.to_N (v mod 256)) with
  | Some b => b
  | None => x00
  end.

Definition byteval (b : byte) : Z := Z.of_N (Byte.to_N b).

(** [ToInt32], the conversion behind [<<], [|], [^] and [&]. *)
Definition ToInt32 (v : Z) : Z := (v + 2 ^ 31) mod 2 ^ 32 - 2 ^ 31.

(** Big-endian value of a run of bytes ([RawBytesToNumeric]). *)
Definition be_value (bs : list byte) : Z :=
  fold_left (fun acc b => acc * 256 + byteval b) bs 0.

(** Big-endian bytes of an unsigned 16- and 32-bit value
    ([NumericToRawBytes] after reduction modulo 2^16 and 2^32). *)
Definition be_bytes16 (v : Z) : list byte :=
  let u := v mod 2 ^ 16 in
  [ToUint8 (Z.shiftr u 8); ToUint8 u].

Definition be_bytes32 (v : Z) : list byte :=
  let u := v mod 2 ^ 32 in
  [ToUint8 (Z.shiftr u 24); ToUint8 (Z.shiftr u 16);
   ToUint8 (Z.shiftr u 8); ToUint8 u].

(** [new ArrayBuffer(n)] and [new Uint8Array(n)]: [n] zero bytes. *)
Definition zeros (n : nat) : list byte := repeat x00 n.

(** Reading [n] bytes at [off] from a view; out of bounds is a
    [RangeError]. *)
Definition read_at (buf : list byte) (off n : nat) : completion (list byte) :=
  if (off + n <=? length buf)%nat
  then Normal (take n (drop off buf))
  else Throw RangeError.

(** Writing a run of bytes at [off]; out of bounds is a [RangeError]. *)
Definition write_at (buf : list byte) (off : nat) (bs : list byte)
  : completion (list byte) :=
  if (off + length bs <=? length buf)%nat
  then Normal (take off buf ++ bs ++ drop (off + length bs) buf)
  else Throw RangeError.

Definition getUint8 (buf : list byte) (off : nat) : completion Z :=
  bs ← read_at buf off 1; Normal (be_value bs).
Definition getUint16 (buf : list byte) (off : nat) : completion Z :=
  bs ← read_at buf off 2; Normal (be_value bs).
Definition getUint32 (buf : list byte) (off : nat) : completion Z :=
  bs ← read_at buf off 4; Normal (be_value bs).

Definition setUint8 (buf : list byte) (off : nat) (v : Z) :=
  write_at buf off [ToUint8 v].
Definition setUint16 (buf : list byte) (off : nat) (v : Z) :=
  write_at buf off (be_bytes16 v).
Definition setUint32 (buf : list byte) (off : nat) (v : Z) :=
  write_at buf off (be_bytes32 v).

(** [TypedArray.prototype.set(source, offset)]. *)
Definition typed_set (target source : list byte) (off : nat) :=
  write_at target off source.

(** [slice(start, end)] with both bounds clamped to the length. *)
Definition slice (l : list byte) (start stop : nat) : list byte :=
  take (stop - start) (drop start l).

End Js.

Import Js.

(** ** src/protocol/P2PProtocol.js *)

Module MessageType.
Definition PING : Z := 1.
Definition PONG : Z := 2.
Definition PEER_DISCOVERY : Z := 3.
Definition PEER_ANNOUNCEMENT : Z := 4.
Definition CHAT_MESSAGE : Z := 5.
Definition PRIVATE_MESSAGE : Z := 6.
Definition ROUTING_UPDATE : Z := 7.
Definition ACK : Z := 8.
End MessageType.

Record Message : Type := mkMessage {
  msgType : Z;
  ttl : Z;
  msgId : Z;
  payload : list byte
}.

Definition payload_length (m : Message) : Z := Z.of_nat (length (payload m)).

(** [new Message(msgType, ttl, msgId, payload)] *)
Definition Message_new (t l i : Z) (p : list byte) : completion Message :=
  if (l <? 0) || (l >? 7) then
    Throw (Error "TTL must be between 0 and 7")
  else if Z.of_nat (length p) >? 65535 then
    Throw (Error "Payload too large (max 65535 bytes)")
  else Normal (mkMessage t l i p).

Definition HEADER_SIZE : nat := 8.
Definition MAX_PAYLOAD_SIZE : Z := 65535.

(** [P2PProtocol.serialize] *)
Definition serialize (message : Message) : completion (list byte) :=
  let payload := payload message in
  let msgType := msgType message in
  let headerBuffer := zeros HEADER_SIZE in
  h1 ← setUint8 headerBuffer 0 msgType;
  h2 ← setUint8 h1 1 (ttl message);
  h3 ← setUint32 h2 2 (msgId message);
  h4 ← setUint16 h3 6 (Z.of_nat (length payload));
  let result := zeros (HEADER_SIZE + length payload) in
  r1 ← typed_set result h4 0;
  r2 ← typed_set r1 payload HEADER_SIZE;
  Normal r2.

(** [P2PProtocol.deserialize]; [None] is the [null] result. *)
Definition deserialize (data : list byte) : completion (option Message) :=
  if (length data <? HEADER_SIZE)%nat then Normal None
  else
    msgType ← getUint8 data 0;
    ttl ← getUint8 data 1;
    msgId ← getUint32 data 2;
    payloadLength ← getUint16 data 6;
    if Z.of_nat (length data) <? Z.of_nat HEADER_SIZE + payloadLength then
      Normal None
    else
      let payload :=
        slice data HEADER_SIZE (HEADER_SIZE + Z.to_nat payloadLength) in
      match Message_new msgType ttl msgId payload with
      | Normal m => Normal (Some m)
      | Throw _ => Normal None
      end.


(** [P2PProtocol.generateMessageId(content)].  [now] is the value of
    [Date.now()], [rnd] the value of [Math.floor(Math.random() * 0xFFFF)]
    and [content] the UTF-16 code units of the text (empty when the
    argument is omitted).  The bitwise operators work on 32-bit signed
    integers, so the result ranges over [-2^31 .. 2^31 - 1]. *)
Definition generateMessageId (now rnd : Z) (content : list Z) : Z :=
  let timestamp := Z.land (ToInt32 now) 0xFFFF in
  let random := rnd in
  let contentHash :=
    fold_left
      (fun contentHash c =>
         Z.land (ToInt32 (ToInt32 (contentHash * 2 ^ 5) - contentHash + c))
                0xFFFF)
      content 0 in
  Z.lor (ToInt32 (timestamp * 2 ^ 16))
        (Z.lxor (ToInt32 random) (ToInt32 contentHash)).

(** The [messageCache] of a protocol instance: a [Set] of ids, kept as the
    list of its elements in insertion order. *)
Abbreviation IdSet := (list Z).

Fixpoint Set_has (x : Z) (s : IdSet) : bool :=
  match s with
  | [] => false
  | y :: s' => (x =? y) || Set_has x s'
  end.

Definition Set_add (x : Z) (s : IdSet) : IdSet :=
  if Set_has x s then s else s ++ [x].

(** [P2PProtocol.isDuplicate]: the answer and the cache afterwards.
    [entries.length / 2] is a fraction for an odd length and
    [Array.prototype.slice] truncates it. *)
Definition isDuplicate (msgId : Z) (messageCache : IdSet) : bool * IdSet :=
  if Set_has msgId messageCache then (true, messageCache)
  else
    let cache1 := Set_add msgId messageCache in
    if Z.of_nat (length cache1) >? 10000 then
      let entries := cache1 in
      let start := Z.to_nat (Z.of_nat (length entries) / 2) in
      (false, fold_left (fun s id => Set_add id s) (drop start entries) [])
    else (false, cache1).

(** The cache after a sequence of duplicate checks, answers dropped. *)
Definition checks (ids : list Z) (messageCache : IdSet) : IdSet :=
  fold_left (fun c id => snd (isDuplicate id c)) ids messageCache.

(** [P2PProtocol.createPing] *)
Definition createPing (now rnd : Z) : completion Message :=
  Message_new MessageType.PING 1 (generateMessageId now rnd []) [].

(** Text and JSON conversions of the platform ([TextEncoder],
    [TextDecoder], [JSON.stringify], [JSON.parse]), which the router only
    passes through. *)
Class Platform : Type := {
  (** [new TextEncoder().encode(text)]: the UTF-8 bytes of a text. *)
  encodeText : string -> list byte;
  (** [content.charCodeAt(i)] for every [i] below [content.length]. *)
  charCodes : string -> list Z;
  (** [decodeTextPayload]: UTF-8 decoding of a payload. *)
  decodeText : list byte -> string;
  (** [decodeJSONPayload(message).nickname] when the payload parses to an
      object with a truthy [nickname], [None] otherwise. *)
  decodeNickname : list byte -> option string;
  (** UTF-8 bytes of [JSON.stringify({nickname, timestamp})]. *)
  encodeAnnouncement : string -> Z -> list byte
}.

(** [P2PProtocol.createChatMessage] *)
Definition createChatMessage `{Platform} (now rnd : Z) (text : string)
    (ttl : Z) : completion Message :=
  let payload := encodeText text in
  Message_new MessageType.CHAT_MESSAGE ttl
    (generateMessageId now rnd (charCodes text)) payload.

(** [P2PProtocol.createPeerAnnouncement] *)
Definition createPeerAnnouncement `{Platform} (now rnd : Z)
    (nickname : string) (timestamp : Z) : completion Message :=
  Message_new MessageType.PEER_ANNOUNCEMENT 1 (generateMessageId now rnd [])
    (encodeAnnouncement nickname timestamp).

(** ** src/network/P2PNetworkManager.js *)

(** A socket object, by identity. *)
Definition socket := nat.

Record PeerInfo : Type := mkPeerInfo {
  address : string;
  port : Z;
  nickname : option string;
  lastSeen : Z;
  hopCount : Z
}.

(** [new PeerInfo(address, port)] at time [now]. *)
Definition PeerInfo_new (address : string) (port now : Z) : PeerInfo :=
  mkPeerInfo address port None now 1.

(** The template [`${address}:${port}`]. *)
Definition peer_key (address : string) (port : Z) : string :=
  address +:+ ":" +:+ pretty port.

(** What a run leaves outside the node: socket calls and the callbacks
    handed to the application. *)
Inductive event : Type :=
| SocketWrite (peerKey : string) (s : socket) (data : list byte)
| SocketDestroy (peerKey : string) (s : socket)
| ServerClose
| OnMessage (sender text : string) (isOwn : bool)
| OnPeerJoined (peer : PeerInfo)
| OnPeerLeft (peer : PeerInfo).

Record P2PNetworkManager : Type := mkNode {
  node_port : Z;
  node_nickname : string;
  messageCache : IdSet;
  peers : gmap string PeerInfo;
  connections : gmap string socket;
  server : bool;
  isRunning : bool
}.

Definition with_cache (c : IdSet) (st : P2PNetworkManager) :=
  mkNode (node_port st) (node_nickname st) c (peers st) (connections st)
         (server st) (isRunning st).
Definition with_peers (p : gmap string PeerInfo) (st : P2PNetworkManager) :=
  mkNode (node_port st) (node_nickname st) (messageCache st) p
         (connections st) (server st) (isRunning st).
Definition with_connections (c : gmap string socket)
    (st : P2PNetworkManager) :=
  mkNode (node_port st) (node_nickname st) (messageCache st) (peers st) c
         (server st) (isRunning st).

(** [new P2PNetworkManager(port, nickname)] *)
Definition P2PNetworkManager_new (port : Z) (nickname : string)
  : P2PNetworkManager :=
  mkNode port nickname [] ∅ ∅ false false.

(** The clock and random values an operation reads. *)
Record env : Type := mkEnv { env_now : Z; env_rnd : Z }.

(** [Buffer.writeUInt32BE(value, 0)] on a fresh four-byte buffer. *)
Definition writeUInt32BE (value : Z) : completion (list byte) :=
  if (0 <=? value) && (value <? 2 ^ 32) then Normal (be_bytes32 value)
  else Throw RangeError.

(** The length-prefixed frame of a message, as [forwardMessage],
    [sendToPeer] and [sendPeerAnnouncement] build it. *)
Definition frame (message : Message) : completion (list byte) :=
  serializedMessage ← serialize message;
  lengthBuffer ← writeUInt32BE (Z.of_nat (length serializedMessage));
  Normal (lengthBuffer ++ serializedMessage).

(** [P2PNetworkManager.forwardMessage]; a failing [socket.write] is caught
    per connection, so every call is recorded and none stops the loop. *)
Definition forwardMessage (st : P2PNetworkManager) (message : Message)
    (excludePeerKey : option string) : completion (list event) :=
  fullMessage ← frame message;
  Normal ((λ kv : string * socket, SocketWrite kv.1 kv.2 fullMessage)
            <$> filter (λ kv : string * socket, Some kv.1 ≠ excludePeerKey)
                  (map_to_list (connections st))).

(** [P2PNetworkManager.broadcastMessage] *)
Definition broadcastMessage (st : P2PNetworkManager) (message : Message) :=
  forwardMessage st message None.

(** [P2PNetworkManager.sendToPeer] *)
Definition sendToPeer (st : P2PNetworkManager) (message : Message)
    (peerKey : string) : completion (list event) :=
  match connections st !! peerKey with
  | Some socket =>
      fullMessage ← frame message;
      Normal [SocketWrite peerKey socket fullMessage]
  | None => Normal []
  end.

Section Node.
Context `{Platform}.

(** [P2PNetworkManager.sendPeerAnnouncement]; [peerKey] names the socket
    in the trace. *)
Definition sendPeerAnnouncement (st : P2PNetworkManager) (e : env)
    (peerKey : string) (socket : socket) : completion (list event) :=
  announcement ←
    createPeerAnnouncement (env_now e) (env_rnd e) (node_nickname st)
      (env_now e);
  fullMessage ← frame announcement;
  Normal [SocketWrite peerKey socket fullMessage].

Definition handler : Type :=
  P2PNetworkManager -> env -> Message -> string ->
  completion (P2PNetworkManager * list event).

(** [P2PNetworkManager.handlePing] *)
Definition handlePing : handler := fun st e message fromPeerKey =>
  pong ← Message_new MessageType.PONG 1
            (generateMessageId (env_now e) (env_rnd e) []) [];
  evs ← sendToPeer st pong fromPeerKey;
  Normal (st, evs).

(** [P2PNetworkManager.handlePong] *)
Definition handlePong : handler := fun st e message fromPeerKey =>
  Normal
    (with_peers
       (alter (λ peer, mkPeerInfo (address peer) (port peer) (nickname peer)
                         (env_now e) (hopCount peer))
              fromPeerKey (peers st)) st,
     []).

(** [P2PNetworkManager.handlePeerDiscovery]: the decoded object is only
    logged. *)
Definition handlePeerDiscovery : handler := fun st e message fromPeerKey =>
  Normal (st, []).

(** [P2PNetworkManager.handlePeerAnnouncement]; a payload that does not
    parse ends in the handler's own [catch]. *)
Definition handlePeerAnnouncement : handler :=
  fun st e message fromPeerKey =>
  match peers st !! fromPeerKey, decodeNickname (payload message) with
  | Some peer, Some nick =>
      Normal
        (with_peers
           (<[fromPeerKey :=
                mkPeerInfo (address peer) (port peer) (Some nick)
                  (env_now e) (hopCount peer)]> (peers st)) st,
         [])
  | _, _ => Normal (st, [])
  end.

(** [P2PNetworkManager.handleChatMessage]: [peer?.nickname || fromPeerKey]
    falls back to the key for a missing peer and for a missing or empty
    nickname. *)
Definition handleChatMessage : handler := fun st e message fromPeerKey =>
  let text := decodeText (payload message) in
  let sender :=
    match peers st !! fromPeerKey ≫= nickname with
    | Some nick => if decide (nick = "") then fromPeerKey else nick
    | None => fromPeerKey
    end in
  Normal (st, [OnMessage sender text false]).

(** The [messageHandlers] table. *)
Definition messageHandlers (t : Z) : option handler :=
  if decide (t = MessageType.PING) then Some handlePing
  else if decide (t = MessageType.PONG) then Some handlePong
  else if decide (t = MessageType.PEER_DISCOVERY) then Some handlePeerDiscovery
  else if decide (t = MessageType.PEER_ANNOUNCEMENT)
       then Some handlePeerAnnouncement
  else if decide (t = MessageType.CHAT_MESSAGE) then Some handleChatMessage
  else None.

(** [P2PNetworkManager.handleMessage]: the handler sees the message as
    received, the forwarded copy carries the decremented [ttl]. *)
Definition handleMessage (st : P2PNetworkManager) (e : env)
    (message : Message) (fromPeerKey : string)
  : completion (P2PNetworkManager * list event) :=
  r ← match messageHandlers (msgType message) with
      | Some handler => handler st e message fromPeerKey
      | None => Normal (st, [])
      end;
  if ttl message >? 0 then
    let message' :=
      mkMessage (msgType message) (ttl message - 1) (msgId message)
                (payload message) in
    evs ← forwardMessage r.1 message' (Some fromPeerKey);
    Normal (r.1, r.2 ++ evs)
  else Normal r.

(** One decoded message in the [data] handler:
    [if (message && !this.protocol.isDuplicate(message.msgId))
       this.handleMessage(message, peerKey)]. *)
Definition onMessageDecoded (st : P2PNetworkManager) (e : env)
    (message : Message) (peerKey : string)
  : completion (P2PNetworkManager * list event) :=
  let r := isDuplicate (msgId message) (messageCache st) in
  let st1 := with_cache r.2 st in
  if r.1 then Normal (st1, [])
  else handleMessage st1 e message peerKey.

(** One extracted frame in the [data] handler; whatever is thrown ends in
    the handler's [catch]. *)
Definition onMessageData (st : P2PNetworkManager) (e : env)
    (messageData : list byte) (peerKey : string)
  : P2PNetworkManager * list event :=
  match deserialize messageData with
  | Normal (Some message) =>
      match onMessageDecoded st e message peerKey with
      | Normal r => r
      | Throw _ =>
          (with_cache (isDuplicate (msgId message) (messageCache st)).2 st, [])
      end
  | _ => (st, [])
  end.

(** [P2PNetworkManager.sendMessage] *)
Definition sendMessage (st : P2PNetworkManager) (e : env) (text : string)
    (ttl : Z) : completion (P2PNetworkManager * list event) :=
  message ← createChatMessage (env_now e) (env_rnd e) text ttl;
  evs ← broadcastMessage st message;
  Normal (st, evs ++ [OnMessage (node_nickname st) text true]).

(** [P2PNetworkManager.start], once the server listens. *)
Definition start (st : P2PNetworkManager) : P2PNetworkManager :=
  mkNode (node_port st) (node_nickname st) (messageCache st) (peers st)
         (connections st) true true.

(** [P2PNetworkManager.stop] *)
Definition stop (st : P2PNetworkManager) : P2PNetworkManager * list event :=
  (mkNode (node_port st) (node_nickname st) (messageCache st) (peers st)
          ∅ false false,
   ((λ kv : string * socket, SocketDestroy kv.1 kv.2)
      <$> map_to_list (connections st))
   ++ (if server st then [ServerClose] else [])).

(** The [connect] callback of [connectToPeer]. *)
Definition onConnect (st : P2PNetworkManager) (e : env)
    (address : string) (port : Z) (socket : socket)
  : P2PNetworkManager * list event :=
  let peerKey := peer_key address port in
  let peer := PeerInfo_new address port (env_now e) in
  let st1 :=
    with_peers (<[peerKey := peer]> (peers st))
      (with_connections (<[peerKey := socket]> (connections st)) st) in
  match sendPeerAnnouncement st1 e peerKey socket with
  | Normal evs => (st1, evs ++ [OnPeerJoined peer])
  | Throw _ => (st1, [])
  end.

(** The outcome of dialling. *)
Inductive dial : Type :=
| Connected (s : socket)
| Failed.

(** [P2PNetworkManager.connectToPeer], with the outcome of the dial; the
    completion is the promise's: [Normal true] resolved, [Throw] rejected. *)
Definition connectToPeer (st : P2PNetworkManager) (e : env)
    (address : string) (port : Z) (d : dial)
  : P2PNetworkManager * list event * completion bool :=
  let peerKey := peer_key address port in
  if decide (is_Some (connections st !! peerKey)) then (st, [], Normal true)
  else
    match d with
    | Connected socket =>
        let r := onConnect st e address port socket in
        (r.1, r.2, Normal true)
    | Failed => (st, [], Throw (Error "connect"))
    end.

(** [P2PNetworkManager.handleIncomingConnection] for a socket with the
    given remote address and port. *)
Definition handleIncomingConnection (st : P2PNetworkManager) (e : env)
    (peerAddress : string) (peerPort : Z) (socket : socket)
  : P2PNetworkManager * list event :=
  let peerKey := peer_key peerAddress peerPort in
  let peer := PeerInfo_new peerAddress peerPort (env_now e) in
  (with_peers (<[peerKey := peer]> (peers st))
     (with_connections (<[peerKey := socket]> (connections st)) st),
   [OnPeerJoined peer]).

(** [P2PNetworkManager.handlePeerDisconnect] *)
Definition handlePeerDisconnect (st : P2PNetworkManager) (peerKey : string)
  : P2PNetworkManager * list event :=
  let peer := peers st !! peerKey in
  (with_peers (delete peerKey (peers st))
     (with_connections (delete peerKey (connections st)) st),
   match peer with
   | Some p => [OnPeerLeft p]
   | None => []
   end).

(** One run of the [cleanup] closure of [startCleanupTask] at time [now]. *)
Definition cleanup (st : P2PNetworkManager) (now : Z)
  : P2PNetworkManager * list event :=
  if isRunning st then
    let staleThreshold := 5 * 60 * 1000 in
    let stalePeers :=
      (map_to_list
         (filter (λ kv : string * PeerInfo,
                    now - lastSeen kv.2 > staleThreshold) (peers st))).*1 in
    foldl (λ (acc : P2PNetworkManager * list event) peerKey,
             let r := handlePeerDisconnect acc.1 peerKey in
             (r.1, acc.2 ++ r.2))
          (st, []) stalePeers
  else (st, []).

(** What can happen to a node, one event of the loop at a time. *)
Inductive action : Type :=
| Start
| Stop
| ConnectToPeer (e : env) (address : string) (port : Z) (d : dial)
| SocketConnect (e : env) (address : string) (port : Z) (s : socket)
| IncomingConnection (e : env) (address : string) (port : Z) (s : socket)
| SocketClosed (peerKey : string)
| CleanupTick (now : Z)
| MessageData (e : env) (messageData : list byte) (peerKey : string)
| SendMessage (e : env) (text : string) (ttl : Z).

Definition perform (st : P2PNetworkManager) (a : action)
  : P2PNetworkManager * list event :=
  match a with
  | Start => (start st, [])
  | Stop => stop st
  | ConnectToPeer e address port d => (connectToPeer st e address port d).1
  | SocketConnect e address port s => onConnect st e address port s
  | IncomingConnection e address port s =>
      handleIncomingConnection st e address port s
  | SocketClosed peerKey => handlePeerDisconnect st peerKey
  | CleanupTick now => cleanup st now
  | MessageData e messageData peerKey =>
      onMessageData st e messageData peerKey
  | SendMessage e text ttl =>
      match sendMessage st e text ttl with
      | Normal r => r
      | Throw _ => (st, [])
      end
  end.

(** The node after a run of events. *)
Definition run (actions : list action) (st : P2PNetworkManager)
  : P2PNetworkManager :=
  foldl (λ st a, (perform st a).1) st actions.

(** States a node created by [new P2PNetworkManager(port, nickname)] can
    be in. *)
Definition reachable (st : P2PNetworkManager) : Prop :=
  ∃ port nickname actions,
    st = run actions (P2PNetworkManager_new port nickname).

End Node.

(** ** Reading a trace *)

(** The connection table and the peer registry hold the same keys. *)
Definition tables_agree (st : P2PNetworkManager) : Prop :=
  dom (connections st) = dom (peers st).

(** The buffers written, in order, to the socket of peer [k]. *)
Definition writes_to (k : string) (trace : list event) : list (list byte) :=
  omap (λ ev, match ev with
              | SocketWrite k' _ data =>
                  if decide (k' = k) then Some data else None
              | _ => None
              end) trace.

(** [message] with another hop budget. *)
Definition with_ttl (l : Z) (message : Message) : Message :=
  mkMessage (msgType message) l (msgId message) (payload message).

(** [data] is a frame of [message], whatever hop budget it carries. *)
Definition carries (data : list byte) (message : Message) : Prop :=
  ∃ l, frame (with_ttl l message) = Normal data.

(** A platform for closed examples, exact on ASCII text: a text is
    encoded and decoded byte per character, no payload is taken for an
    announcement object, and an announcement is encoded as the bare
    nickname. *)
Definition example_platform : Platform := {|
  encodeText := λ text,
    Ascii.byte_of_ascii <$> String.list_ascii_of_string text;
  charCodes := λ text,
    (λ c, Z.of_N (Ascii.N_of_ascii c)) <$> String.list_ascii_of_string text;
  decodeText := λ p, String.string_of_list_ascii (Ascii.ascii_of_byte <$> p);
  decodeNickname := λ _, None;
  encodeAnnouncement := λ nickname _,
    Ascii.byte_of_ascii <$> String.list_ascii_of_string nickname
|}.

(** ** The message codec *)

(** The four header fields of a buffer, read the way the wire format
    lays them out: one byte, one byte, four bytes and two bytes, each
    big-endian. *)
Definition field_type (data : list byte) : Z := be_value (take 1 data).
Definition field_ttl (data : list byte) : Z := be_value (take 1 (drop 1 data)).
Definition field_id (data : list byte) : Z := be_value (take 4 (drop 2 data)).
Definition field_length (data : list byte) : Z :=
  be_value (take 2 (drop 6 data)).

(** What the constructor checks. *)
Definition valid (m : Message) : Prop :=
  0 <= ttl m <= 7 /\ payload_length m <= 65535.

(** Messages whose type code and id fit their wire fields. *)
Definition fits_wire (m : Message) : Prop :=
  0 <= msgType m < 256 /\ 0 <= msgId m < 2 ^ 32.

(** ** The deduplication cache *)

(** How many distinct ids other than [id] a sequence of checks names. *)
Definition distinct_others (id : Z) (ids : list Z) : Z :=
  Z.of_nat (length (remove_dups (filter (λ x, x ≠ id) ids))).


(** ** A small mesh for closed examples *)

(** A clock value with bit 15 set, and a random draw. *)
Definition example_env : env := mkEnv 1762153237000 12345.

(** A node listening on 8888 that accepted two connections. *)
Definition example_node : P2PNetworkManager :=
  run (H := example_platform)
    [Start;
     IncomingConnection example_env "10.0.0.2" 40001 0%nat;
     IncomingConnection example_env "10.0.0.3" 40002 1%nat]
    (P2PNetworkManager_new 8888 "me").

(** A PING as [createPing] builds it, with one hop left. *)
Definition example_ping : Message := mkMessage MessageType.PING 1 77 [].

(** ** The [data] handler of [setupSocketHandlers] *)

(** [Buffer.readUInt32BE(offset)]; out of bounds is a [RangeError]. *)
Definition readUInt32BE (buf : list byte) (off : nat) : completion Z :=
  getUint32 buf off.

Section DataHandler.
Context `{Platform}.

(** The [while (messageBuffer.length >= 4)] loop of the [data] handler.
    [reads i] holds the clock and random values read while the [i]-th
    frame of the event is handled.  Anything thrown leaves the loop for
    the handler's [catch], with the buffer as the loop left it.  Every
    round that goes on drops at least four bytes, so [fuel] above the
    buffer's length is never used up. *)
Fixpoint processBuffer (fuel : nat) (st : P2PNetworkManager)
    (reads : nat -> env) (i : nat) (messageBuffer : list byte)
    (peerKey : string) : P2PNetworkManager * list event * list byte :=
  match fuel with
  | O => (st, [], messageBuffer)
  | S fuel' =>
      if (4 <=? length messageBuffer)%nat then
        match readUInt32BE messageBuffer 0 with
        | Throw _ => (st, [], messageBuffer)
        | Normal messageLength =>
            if Z.of_nat (length messageBuffer) >=? 4 + messageLength then
              let messageData :=
                slice messageBuffer 4 (4 + Z.to_nat messageLength) in
              let messageBuffer' :=
                drop (4 + Z.to_nat messageLength) messageBuffer in
              match deserialize messageData with
              | Throw _ => (st, [], messageBuffer')
              | Normal None =>
                  processBuffer fuel' st reads (S i) messageBuffer' peerKey
              | Normal (Some message) =>
                  match onMessageDecoded st (reads i) message peerKey with
                  | Throw _ =>
                      (with_cache
                         (isDuplicate (msgId message) (messageCache st)).2 st,
                       [], messageBuffer')
                  | Normal r =>
                      let r' :=
                        processBuffer fuel' r.1 reads (S i) messageBuffer'
                          peerKey in
                      (r'.1.1, r.2 ++ r'.1.2, r'.2)
                  end
              end
            else (st, [], messageBuffer)
        end
      else (st, [], messageBuffer)
  end.

(** The [data] handler: the node, the trace and the connection's
    [messageBuffer] after the event. *)
Definition onData (st : P2PNetworkManager) (reads : nat -> env)
    (messageBuffer data : list byte) (peerKey : string)
  : P2PNetworkManager * list event * list byte :=
  let messageBuffer := messageBuffer ++ data in
  processBuffer (S (length messageBuffer)) st reads 0 messageBuffer peerKey.

(** Handling a list of frames one after the other, the [i]-th with the
    values [reads i]. *)
Fixpoint processFrames (st : P2PNetworkManager) (reads : nat -> env)
    (i : nat) (frames : list (list byte)) (peerKey : string)
  : P2PNetworkManager * list event :=
  match frames with
  | [] => (st, [])
  | messageData :: frames' =>
      let r := onMessageData st (reads i) messageData peerKey in
      let r' := processFrames r.1 reads (S i) frames' peerKey in
      (r'.1, r.2 ++ r'.2)
  end.

End DataHandler.

(** ** Reading a buffer *)

(** The complete frames at the front of a buffer and what is left behind
    them: the loop of the [data] handler without the handling. *)
Fixpoint extractFrames (fuel : nat) (messageBuffer : list byte)
  : list (list byte) * list byte :=
  match fuel with
  | O => ([], messageBuffer)
  | S fuel' =>
      if (4 <=? length messageBuffer)%nat then
        let messageLength := be_value (take 4 messageBuffer) in
        if Z.of_nat (length messageBuffer) >=? 4 + messageLength then
          let r :=
            extractFrames fuel'
              (drop (4 + Z.to_nat messageLength) messageBuffer) in
          (slice messageBuffer 4 (4 + Z.to_nat messageLength) :: r.1, r.2)
        else ([], messageBuffer)
      else ([], messageBuffer)
  end.

(** A frame on the wire: its length in four big-endian bytes, then its
    bytes. *)
Definition with_prefix (messageData : list byte) : list byte :=
  be_bytes32 (Z.of_nat (length messageData)) ++ messageData.

(** A buffer that does not start with a complete frame. *)
Definition incomplete (messageBuffer : list byte) : Prop :=
  (length messageBuffer < 4)%nat
  \/ Z.of_nat (length messageBuffer) < 4 + be_value (take 4 messageBuffer).

(** An event that leaves every connection and peer as it is: bytes handed
    to a socket, or a message handed to the application. *)
Definition inert (ev : event) : Prop :=
  match ev with
  | SocketWrite _ _ _ | OnMessage _ _ _ => True
  | _ => False
  end.

(** A second platform for closed examples, as [example_platform] except
    that a non-empty payload is taken for the announcement of the nickname
    it spells. *)
Definition announcing_platform : Platform := {|
  encodeText := λ text,
    Ascii.byte_of_ascii <$> String.list_ascii_of_string text;
  charCodes := λ text,
    (λ c, Z.of_N (Ascii.N_of_ascii c)) <$> String.list_ascii_of_string text;
  decodeText := λ p, String.string_of_list_ascii (Ascii.ascii_of_byte <$> p);
  decodeNickname := λ p,
    match p with
    | [] => None
    | _ => Some (String.string_of_list_ascii (Ascii.ascii_of_byte <$> p))
    end;
  encodeAnnouncement := λ nickname _,
    Ascii.byte_of_ascii <$> String.list_ascii_of_string nickname
|}.

(** The rolling hash of [generateMessageId], on its own. *)
Definition contentHash (content : list Z) : Z :=
  fold_left
    (fun contentHash c =>
       Z.land (ToInt32 (ToInt32 (contentHash * 2 ^ 5) - contentHash + c))
              0xFFFF)
    content 0.

(** * Properties *)
(** ** Facts about bytes and big-endian fields *)

Section Bytes.

Lemma byteval_range (b : byte) : 0 <= byteval b < 256.
Proof.
  unfold byteval. pose proof (Byte.to_N_bounded b). lia.
Qed.

Lemma byteval_ToUint8 (v : Z) : byteval (ToUint8 v) = v mod 256.
Proof.
  unfold byteval, ToUint8.
  assert (Hr : 0 <= v mod 256 < 256) by (apply Z.mod_pos_bound; lia).
  destruct (Byte.of_N (Z.to_N (v mod 256))) as [b|] eqn:E.
  - apply Byte.to_of_N in E. rewrite E. lia.
  - apply Byte.of_N_None_iff in E. lia.
Qed.

Lemma ToUint8_byteval (b : byte) : ToUint8 (byteval b) = b.
Proof.
  unfold ToUint8, byteval.
  pose proof (Byte.to_N_bounded b) as Hb.
  rewrite Z.mod_small by lia.
  rewrite N2Z.id, Byte.of_to_N. reflexivity.
Qed.

Lemma byteval_inj (a b : byte) : byteval a = byteval b -> a = b.
Proof.
  intros H. rewrite <- (ToUint8_byteval a), <- (ToUint8_byteval b).
  now rewrite H.
Qed.

Lemma be_value_1 (a : byte) : be_value [a] = byteval a.
Proof. reflexivity. Qed.

Lemma be_value_2 (a b : byte) : be_value [a; b] = byteval a * 256 + byteval b.
Proof. reflexivity. Qed.

Lemma be_value_4 (a b c d : byte) :
  be_value [a; b; c; d]
  = byteval a * 2 ^ 24 + byteval b * 2 ^ 16 + byteval c * 2 ^ 8 + byteval d.
Proof. unfold be_value. simpl fold_left. lia. Qed.

Lemma be_value_bytes16 (v : Z) : be_value (be_bytes16 v) = v mod 2 ^ 16.
Proof.
  unfold be_bytes16. rewrite be_value_2, !byteval_ToUint8.
  rewrite Z.shiftr_div_pow2 by lia.
  assert (0 <= v mod 2 ^ 16 < 2 ^ 16) by (apply Z.mod_pos_bound; lia).
  generalize dependent (v mod 2 ^ 16). intros u Hu.
  change (2 ^ 8) with 256. change (2 ^ 16) with 65536 in Hu.
  Z.div_mod_to_equations. lia.
Qed.

Lemma be_value_bytes32 (v : Z) : be_value (be_bytes32 v) = v mod 2 ^ 32.
Proof.
  unfold be_bytes32. rewrite be_value_4, !byteval_ToUint8.
  rewrite !Z.shiftr_div_pow2 by lia.
  assert (0 <= v mod 2 ^ 32 < 2 ^ 32) by (apply Z.mod_pos_bound; lia).
  generalize dependent (v mod 2 ^ 32). intros u Hu.
  change (2 ^ 8) with 256. change (2 ^ 16) with 65536.
  change (2 ^ 24) with 16777216. change (2 ^ 32) with 4294967296 in Hu.
  Z.div_mod_to_equations. lia.
Qed.

End Bytes.

Section Codec.

Lemma write_at_ok (buf : list byte) (off : nat) (bs : list byte) :
  (off + length bs <= length buf)%nat ->
  write_at buf off bs
  = Normal (take off buf ++ bs ++ drop (off + length bs) buf).
Proof.
  intros Hfit. unfold write_at.
  destruct (Nat.leb_spec (off + length bs) (length buf)); [reflexivity | lia].
Qed.

Lemma read_at_ok (buf : list byte) (off n : nat) :
  (off + n <= length buf)%nat ->
  read_at buf off n = Normal (take n (drop off buf)).
Proof.
  intros Hfit. unfold read_at.
  destruct (Nat.leb_spec (off + n) (length buf)); [reflexivity | lia].
Qed.

(** [serialize] never throws, and this is what it returns. *)
Lemma serialize_eq (m : Message) :
  serialize m
  = Normal (ToUint8 (msgType m) :: ToUint8 (ttl m)
            :: be_bytes32 (msgId m) ++ be_bytes16 (payload_length m)
            ++ payload m).
Proof.
  unfold serialize, setUint8, setUint16, setUint32, typed_set.
  unfold HEADER_SIZE, zeros, payload_length, be_bytes32, be_bytes16.
  simpl. rewrite drop_0.
  rewrite write_at_ok by (simpl; rewrite repeat_length; lia).
  simpl. rewrite drop_ge by (rewrite repeat_length; lia).
  rewrite app_nil_r. reflexivity.
Qed.

Lemma serialize_length (m : Message) (bs : list byte) :
  serialize m = Normal bs -> length bs = (8 + length (payload m))%nat.
Proof.
  rewrite serialize_eq. intros [= <-]. reflexivity.
Qed.

(** [deserialize] with its reads resolved: past the length guard none of
    them is out of bounds. *)
Lemma deserialize_eq (data : list byte) :
  deserialize data =
  if (length data <? 8)%nat then Normal None
  else if Z.of_nat (length data) <? 8 + field_length data then Normal None
  else match Message_new (field_type data) (field_ttl data) (field_id data)
               (slice data 8 (8 + Z.to_nat (field_length data))) with
       | Normal m => Normal (Some m)
       | Throw _ => Normal None
       end.
Proof.
  unfold deserialize, HEADER_SIZE.
  destruct (Nat.ltb_spec (length data) 8) as [Hlt|Hge]; [reflexivity|].
  unfold getUint8, getUint16, getUint32.
  rewrite !read_at_ok by lia. reflexivity.
Qed.

Lemma Message_new_valid (m : Message) :
  valid m ->
  Message_new (msgType m) (ttl m) (msgId m) (payload m) = Normal m.
Proof.
  intros [Ht Hp]. unfold Message_new, payload_length in *.
  destruct (Z.ltb_spec (ttl m) 0); [lia|].
  destruct (Z.gtb_spec (ttl m) 7); [lia|].
  destruct (Z.gtb_spec (Z.of_nat (length (payload m))) 65535); [lia|].
  destruct m; reflexivity.
Qed.

Lemma serialized_fields (m : Message) (bs : list byte) :
  serialize m = Normal bs ->
  field_type bs = msgType m mod 256
  /\ field_ttl bs = ttl m mod 256
  /\ field_id bs = msgId m mod 2 ^ 32
  /\ field_length bs = payload_length m mod 2 ^ 16
  /\ drop 8 bs = payload m.
Proof.
  rewrite serialize_eq. intros [= <-].
  unfold field_type, field_ttl, field_id, field_length.
  repeat split.
  - simpl take. now rewrite be_value_1, byteval_ToUint8.
  - simpl. now rewrite be_value_1, byteval_ToUint8.
  - change (be_value (be_bytes32 (msgId m)) = msgId m mod 2 ^ 32).
    apply be_value_bytes32.
  - change (be_value (be_bytes16 (payload_length m))
            = payload_length m mod 2 ^ 16).
    apply be_value_bytes16.
Qed.

Lemma field_ranges (data : list byte) :
  (8 <= length data)%nat ->
  0 <= field_type data < 256 /\ 0 <= field_ttl data < 256
  /\ 0 <= field_id data < 2 ^ 32 /\ 0 <= field_length data < 2 ^ 16.
Proof.
  intros Hlen.
  do 8 (destruct data as [|? data]; [simpl in Hlen; lia|]).
  unfold field_type, field_ttl, field_id, field_length. simpl take.
  rewrite !be_value_1, be_value_2, be_value_4.
  clear Hlen.
  repeat match goal with b : byte |- _ =>
    pose proof (byteval_range b); generalize dependent (byteval b); clear b
  end.
  intros. lia.
Qed.

(** Decoding inverts encoding on every message that passes the
    constructor's checks and whose type and id fit their wire fields. *)
Lemma roundtrip_fits_wire (m : Message) :
  valid m -> fits_wire m ->
  serialize m ≫= deserialize = Normal (Some m).
Proof.
  intros Hv [Hty Hid].
  destruct (serialize m) as [bs|e] eqn:Hs;
    [|rewrite serialize_eq in Hs; discriminate].
  pose proof (serialize_length _ _ Hs) as Hlen.
  destruct (serialized_fields _ _ Hs) as (Ft & Fl & Fi & Fn & Fp).
  pose proof Hv as [Ht Hp].
  rewrite Z.mod_small in Ft by lia. rewrite Z.mod_small in Fl by lia.
  rewrite Z.mod_small in Fi by lia.
  rewrite Z.mod_small in Fn by (unfold payload_length in *; lia).
  change (deserialize bs = Normal (Some m)).
  rewrite deserialize_eq, Ft, Fl, Fi, Fn.
  unfold payload_length in *.
  destruct (Nat.ltb_spec (length bs) 8); [lia|].
  destruct (Z.ltb_spec (Z.of_nat (length bs))
              (8 + Z.of_nat (length (payload m)))); [lia|].
  unfold slice. rewrite Nat2Z.id.
  replace (8 + length (payload m) - 8)%nat with (length (payload m)) by lia.
  rewrite Fp, firstn_all. now rewrite Message_new_valid.
Qed.

Lemma Message_new_ok (t l i : Z) (p : list byte) :
  0 <= l <= 7 -> Z.of_nat (length p) <= 65535 ->
  Message_new t l i p = Normal (mkMessage t l i p).
Proof.
  intros Hl Hp. unfold Message_new.
  destruct (Z.ltb_spec l 0); [lia|].
  destruct (Z.gtb_spec l 7); [lia|].
  destruct (Z.gtb_spec (Z.of_nat (length p)) 65535); [lia|]. reflexivity.
Qed.

Lemma Message_new_throws (t l i : Z) (p : list byte) :
  l < 0 \/ 7 < l \/ 65535 < Z.of_nat (length p) ->
  ∃ e, Message_new t l i p = Throw e.
Proof.
  intros Hbad. unfold Message_new.
  destruct (Z.ltb_spec l 0); [simpl; eauto|].
  destruct (Z.gtb_spec l 7); [simpl; eauto|].
  destruct (Z.gtb_spec (Z.of_nat (length p)) 65535); [simpl; eauto | lia].
Qed.

(** C8. [new Message(type, ttl, id, payload)] throws to its caller exactly
    when [ttl] is outside 0..7 or the payload is longer than 65535 bytes;
    otherwise it returns the message holding the four values given. *)
Theorem Message_new_validation (t l i : Z) (p : list byte) :
  ((∃ e, Message_new t l i p = Throw e)
     <-> (l < 0 \/ 7 < l \/ 65535 < Z.of_nat (length p)))
  /\ (Message_new t l i p = Normal (mkMessage t l i p)
     <-> (0 <= l <= 7 /\ Z.of_nat (length p) <= 65535))
  /\ (∀ m, Message_new t l i p = Normal m ->
         msgType m = t /\ ttl m = l /\ msgId m = i /\ payload m = p).
Proof.
  destruct (decide (0 <= l <= 7 /\ Z.of_nat (length p) <= 65535))
    as [[Hl Hp]|Hbad].
  - pose proof (Message_new_ok t l i p Hl Hp) as Hok.
    split; [|split].
    + split; [|lia]. intros [e He]. rewrite Hok in He. discriminate He.
    + split; [auto | intros _; exact Hok].
    + intros m Hm. rewrite Hok in Hm. injection Hm as <-. auto.
  - assert (Hout : l < 0 \/ 7 < l \/ 65535 < Z.of_nat (length p)) by lia.
    destruct (Message_new_throws t l i p Hout) as [e He].
    split; [|split].
    + split; [intros _; exact Hout | eauto].
    + split; [|intros Hin; contradiction].
      intros Hm. rewrite He in Hm. discriminate Hm.
    + intros m Hm. rewrite He in Hm. discriminate Hm.
Qed.

Lemma Message_new_validation_witness :
  Message_new 5 3 7 [x68; x69] = Normal (mkMessage 5 3 7 [x68; x69])
  /\ ∃ e, Message_new 5 8 7 [] = Throw e.
Proof.
  split.
  - apply (proj1 (proj2 (Message_new_validation 5 3 7 [x68; x69]))).
    simpl. lia.
  - apply (proj1 (Message_new_validation 5 8 7 [])). lia.
Defined.

(** C9. [deserialize] returns normally on every byte sequence: [null]
    below eight bytes, [null] when fewer than [8 + payloadLength] bytes are
    there, [null] when the constructor rejects the header (which, for
    fields read from bytes, is the case exactly when the ttl byte exceeds
    7), and in every other case the message made of the four header
    fields and the [payloadLength] bytes after the header. *)
Theorem deserialize_never_raises (data : list byte) :
  ∃ r, deserialize data = Normal r
    /\ ((length data < 8)%nat -> r = None)
    /\ ((8 <= length data)%nat ->
        Z.of_nat (length data) < 8 + field_length data -> r = None)
    /\ ((8 <= length data)%nat ->
        8 + field_length data <= Z.of_nat (length data) ->
        (∃ e, Message_new (field_type data) (field_ttl data) (field_id data)
                (take (Z.to_nat (field_length data)) (drop 8 data))
              = Throw e) ->
        7 < field_ttl data /\ r = None)
    /\ ((8 <= length data)%nat ->
        8 + field_length data <= Z.of_nat (length data) ->
        field_ttl data <= 7 ->
        r = Some (mkMessage (field_type data) (field_ttl data)
                    (field_id data)
                    (take (Z.to_nat (field_length data)) (drop 8 data)))).
Proof.
  rewrite deserialize_eq.
  destruct (Nat.ltb_spec (length data) 8) as [Hlt|Hge].
  { eexists; split; [reflexivity|]. repeat split; intros; try lia; auto. }
  destruct (field_ranges data Hge) as (Rt & Rl & Ri & Rn).
  destruct (Z.ltb_spec (Z.of_nat (length data)) (8 + field_length data))
    as [Hshort|Hfull].
  { eexists; split; [reflexivity|]. repeat split; intros; try lia; auto. }
  unfold slice.
  replace (8 + Z.to_nat (field_length data) - 8)%nat
    with (Z.to_nat (field_length data)) by lia.
  set (p := take (Z.to_nat (field_length data)) (drop 8 data)).
  assert (Hp : Z.of_nat (length p) <= 65535).
  { subst p. rewrite length_take. change (2 ^ 16) with 65536 in Rn. lia. }
  destruct (Z.le_gt_cases (field_ttl data) 7) as [Hle|Hgt].
  - pose proof (Message_new_ok (field_type data) (field_ttl data)
                  (field_id data) p (conj (proj1 Rl) Hle) Hp) as Hnew.
    rewrite Hnew.
    eexists; split; [reflexivity|].
    split; [intros; lia|]. split; [intros; lia|].
    split; [|reflexivity].
    intros _ _ [e He]. unfold p in *. congruence.
  - destruct (Message_new_throws (field_type data) (field_ttl data)
                (field_id data) p) as [e ->]; [lia|].
    eexists; split; [reflexivity|].
    split; [intros; lia|]. split; [intros; lia|].
    split; [auto | intros; lia].
Qed.

(** C2. For a valid message [serialize] returns exactly
    [8 + payload.length] bytes: byte 0 is the type and byte 1 the ttl,
    bytes 2-5 are the id as a 32-bit big-endian integer, bytes 6-7 the
    payload length big-endian, and the payload follows unchanged.  A type
    or id is written reduced to the width of its field, so it is the value
    itself for every type code 0..255 and id 0..2^32-1, and the two's
    complement for a negative id. *)
Theorem serialize_layout (m : Message) :
  valid m ->
  ∃ bs, serialize m = Normal bs
    /\ length bs = (8 + length (payload m))%nat
    /\ byteval <$> bs !! 0%nat = Some (msgType m mod 2 ^ 8)
    /\ (0 <= msgType m < 2 ^ 8 -> byteval <$> bs !! 0%nat = Some (msgType m))
    /\ byteval <$> bs !! 1%nat = Some (ttl m)
    /\ length (take 4 (drop 2 bs)) = 4%nat
    /\ be_value (take 4 (drop 2 bs)) = msgId m mod 2 ^ 32
    /\ (0 <= msgId m < 2 ^ 32 -> be_value (take 4 (drop 2 bs)) = msgId m)
    /\ length (take 2 (drop 6 bs)) = 2%nat
    /\ be_value (take 2 (drop 6 bs)) = payload_length m
    /\ drop 8 bs = payload m.
Proof.
  intros [Ht Hp].
  destruct (serialize m) as [bs|e] eqn:Hs;
    [|rewrite serialize_eq in Hs; discriminate].
  destruct (serialized_fields _ _ Hs) as (Ft & Fl & Fi & Fn & Fp).
  pose proof (serialize_length _ _ Hs) as Hlen.
  exists bs. split; [reflexivity|]. split; [exact Hlen|].
  rewrite Z.mod_small in Fn by (unfold payload_length in *; lia).
  assert (H0 : byteval <$> bs !! 0%nat = Some (msgType m mod 2 ^ 8)).
  { rewrite serialize_eq in Hs. injection Hs as <-.
    simpl. now rewrite byteval_ToUint8. }
  split; [exact H0|].
  split; [intros Hty; rewrite H0, Z.mod_small by exact Hty; reflexivity|].
  split.
  { rewrite serialize_eq in Hs. injection Hs as <-.
    simpl. rewrite byteval_ToUint8, Z.mod_small by lia. reflexivity. }
  split; [rewrite length_take, length_drop; lia|].
  split; [exact Fi|].
  split; [intros Hid; unfold field_id in Fi; rewrite Fi;
          apply Z.mod_small; exact Hid|].
  split; [rewrite length_take, length_drop; lia|].
  split; [exact Fn | exact Fp].
Qed.

Lemma serialize_layout_witness :
  ∃ bs, serialize (mkMessage 5 2 0x12345678 [x54; x65])
        = Normal bs
    /\ bs = [x05; x02; x12; x34; x56; x78; x00; x02; x54; x65].
Proof.
  destruct (serialize_layout (mkMessage 5 2 0x12345678 [x54; x65]))
    as (bs & Hs & _).
  - unfold valid, payload_length. simpl. lia.
  - exists bs. split; [exact Hs|].
    rewrite serialize_eq in Hs. injection Hs as <-. reflexivity.
Defined.

(** [generateMessageId] is negative whenever bit 15 of the clock is set:
    the shift moves that bit into the sign. *)
Lemma generateMessageId_negative (now rnd : Z) (content : list Z) :
  2 ^ 15 <= Z.land (ToInt32 now) 0xFFFF ->
  generateMessageId now rnd content < 0.
Proof.
  intros Hbit. unfold generateMessageId. apply Z.lor_neg. left.
  assert (Hhi : Z.land (ToInt32 now) 0xFFFF < 2 ^ 16).
  { change 0xFFFF with (Z.ones 16). rewrite Z.land_ones by lia.
    apply Z.mod_pos_bound. lia. }
  generalize dependent (Z.land (ToInt32 now) 0xFFFF). intros t Hlo Hhi.
  unfold ToInt32.
  change (2 ^ 15) with 32768 in *. change (2 ^ 16) with 65536 in *.
  change (2 ^ 31) with 2147483648. change (2 ^ 32) with 4294967296.
  Z.div_mod_to_equations. lia.
Qed.

(** No message with a negative id survives the round trip: the id comes
    back reduced modulo 2^32. *)
Lemma negative_id_not_preserved (m : Message) :
  msgId m < 0 -> serialize m ≫= deserialize ≠ Normal (Some m).
Proof.
  intros Hneg.
  destruct (serialize m) as [bs|e] eqn:Hs;
    [|rewrite serialize_eq in Hs; discriminate].
  destruct (serialized_fields _ _ Hs) as (_ & _ & Fi & _).
  change (deserialize bs ≠ Normal (Some m)).
  rewrite deserialize_eq.
  destruct (_ <? _)%nat; [discriminate|].
  destruct (_ <? _); [discriminate|].
  unfold Message_new.
  destruct (_ || _); [discriminate|].
  destruct (_ >? _); [discriminate|].
  intros [= Hm]. rewrite <- Hm in Hneg. simpl in Hneg.
  rewrite Fi in Hneg.
  pose proof (Z.mod_pos_bound (msgId m) (2 ^ 32)). lia.
Qed.

(** C1. Decoding does not invert encoding on every valid message: a
    message whose id is negative comes back with the id plus 2^32.
    [generateMessageId] returns such ids whenever bit 15 of the clock is
    set; here the message is the demo's
    [createChatMessage('Hello from React Native!', 3)] at clock value
    1762153237000. *)
Theorem roundtrip_changes_negative_id :
  ∃ m m',
    createChatMessage (H := example_platform) 1762153237000 12345
      "Hello from React Native!" 3 = Normal m
    /\ valid m
    /\ msgId m = -1979152008
    /\ serialize m ≫= deserialize = Normal (Some m')
    /\ msgType m' = msgType m /\ ttl m' = ttl m /\ payload m' = payload m
    /\ msgId m' = 2315815288
    /\ m' ≠ m.
Proof.
  eexists _, _. split; [vm_compute; reflexivity|].
  split; [unfold valid, payload_length; simpl; lia|].
  split; [reflexivity|].
  split; [vm_compute; reflexivity|].
  repeat (split; [reflexivity|]).
  intros [=].
Qed.

End Codec.

Section Dedup.

Lemma Set_has_true (x : Z) (s : IdSet) : Set_has x s = true <-> x ∈ s.
Proof.
  induction s as [|y s IH]; simpl.
  - split; [discriminate | intros Hin; inversion Hin].
  - rewrite orb_true_iff, IH, elem_of_cons, Z.eqb_eq. reflexivity.
Qed.

Lemma Set_has_false (x : Z) (s : IdSet) : Set_has x s = false <-> x ∉ s.
Proof.
  rewrite <- Set_has_true. destruct (Set_has x s); split; congruence.
Qed.

Lemma elem_of_Set_add (x y : Z) (s : IdSet) :
  x ∈ Set_add y s <-> x ∈ s \/ x = y.
Proof.
  unfold Set_add. destruct (Set_has y s) eqn:E.
  - apply Set_has_true in E. split; [auto|]. intros [? | ->]; assumption.
  - rewrite elem_of_app, list_elem_of_singleton. reflexivity.
Qed.

(** Filling a set from a list: membership is that of the list. *)
Lemma elem_of_refill (x : Z) (l acc : IdSet) :
  x ∈ fold_left (fun s id => Set_add id s) l acc <-> x ∈ acc \/ x ∈ l.
Proof.
  revert acc. induction l as [|y l IH]; intros acc; simpl.
  - split; [auto|]. intros [?|Hin]; [assumption | inversion Hin].
  - rewrite IH, elem_of_Set_add, elem_of_cons. tauto.
Qed.

(** Filling a set from a list without repetitions keeps the list. *)
Lemma refill_NoDup (l acc : IdSet) :
  NoDup (acc ++ l) ->
  fold_left (fun s id => Set_add id s) l acc = acc ++ l.
Proof.
  revert acc. induction l as [|y l IH]; intros acc Hnd; simpl.
  - now rewrite app_nil_r.
  - assert (Hy : y ∉ acc).
    { apply NoDup_app in Hnd as (_ & Hdisj & _).
      intros Hin. apply (Hdisj y Hin). left. }
    unfold Set_add. rewrite (proj2 (Set_has_false y acc) Hy).
    rewrite IH; rewrite <- app_assoc; [reflexivity | exact Hnd].
Qed.

Lemma isDuplicate_seen (id : Z) (c : IdSet) :
  id ∈ c -> isDuplicate id c = (true, c).
Proof.
  intros Hin. unfold isDuplicate.
  now rewrite (proj2 (Set_has_true id c) Hin).
Qed.

Lemma isDuplicate_new (id : Z) (c : IdSet) :
  id ∉ c -> NoDup c ->
  isDuplicate id c =
  (false,
   if Z.of_nat (length (c ++ [id])) >? 10000
   then drop (Z.to_nat (Z.of_nat (length (c ++ [id])) / 2)) (c ++ [id])
   else c ++ [id]).
Proof.
  intros Hnew Hnd. unfold isDuplicate.
  pose proof (proj2 (Set_has_false id c) Hnew) as Hhas.
  rewrite Hhas. unfold Set_add. rewrite Hhas.
  destruct (Z.of_nat (length (c ++ [id])) >? 10000); [|reflexivity].
  f_equal. apply (refill_NoDup _ []).
  simpl. apply (sublist_NoDup _ (c ++ [id])); [|apply sublist_drop].
  apply NoDup_app. repeat split; try assumption.
  - intros x Hx Hx'. apply list_elem_of_singleton in Hx'. now subst.
  - apply NoDup_singleton.
Qed.

Lemma isDuplicate_answer (id : Z) (c : IdSet) :
  (isDuplicate id c).1 = true <-> id ∈ c.
Proof.
  unfold isDuplicate. destruct (Set_has id c) eqn:E.
  - apply Set_has_true in E. simpl. tauto.
  - apply Set_has_false in E.
    destruct (_ >? _); simpl; split; intros; [discriminate | tauto
                                              | discriminate | tauto].
Qed.

Lemma isDuplicate_NoDup (id : Z) (c : IdSet) :
  NoDup c -> NoDup (isDuplicate id c).2.
Proof.
  intros Hnd. destruct (decide (id ∈ c)) as [Hin|Hnew].
  - now rewrite isDuplicate_seen.
  - rewrite isDuplicate_new by assumption. simpl.
    assert (NoDup (c ++ [id])).
    { apply NoDup_app. repeat split; try assumption.
      - intros x Hx Hx'. apply list_elem_of_singleton in Hx'. now subst.
      - apply NoDup_singleton. }
    destruct (_ >? _); [|assumption].
    eapply sublist_NoDup; [eassumption | apply sublist_drop].
Qed.

Lemma checks_cons (x : Z) (l : list Z) (c : IdSet) :
  checks (x :: l) c = checks l (isDuplicate x c).2.
Proof. reflexivity. Qed.

Lemma checks_app (l1 l2 : list Z) (c : IdSet) :
  checks (l1 ++ l2) c = checks l2 (checks l1 c).
Proof. unfold checks. apply fold_left_app. Qed.

(** Below the capacity, checking fresh ids appends them. *)
Lemma checks_fresh (l : list Z) (c : IdSet) :
  NoDup (c ++ l) -> Z.of_nat (length (c ++ l)) <= 10000 ->
  checks l c = c ++ l.
Proof.
  revert c. induction l as [|x l IH]; intros c Hnd Hlen.
  - simpl. now rewrite app_nil_r.
  - change (checks (x :: l) c) with (checks l (isDuplicate x c).2).
    assert (Hc : NoDup c) by (apply NoDup_app in Hnd; tauto).
    assert (Hx : x ∉ c).
    { apply NoDup_app in Hnd as (_ & Hdisj & _).
      intros Hin. apply (Hdisj x Hin). left. }
    rewrite isDuplicate_new by assumption. simpl.
    rewrite cons_middle, app_assoc in Hnd, Hlen.
    destruct (Z.gtb_spec (Z.of_nat (length (c ++ [x]))) 10000) as [Hbig|_].
    + rewrite length_app in Hlen. lia.
    + rewrite IH by assumption. now rewrite <- app_assoc.
Qed.

(** C10. Whatever a duplicate check answers, the id it was asked about is
    in the cache afterwards; the eviction keeps the id just added. *)
Theorem isDuplicate_records (id : Z) (c : IdSet) :
  id ∈ (isDuplicate id c).2
  /\ (isDuplicate id (isDuplicate id c).2).1 = true.
Proof.
  assert (Hin : id ∈ (isDuplicate id c).2).
  { unfold isDuplicate. destruct (Set_has id c) eqn:E.
    - now apply Set_has_true in E.
    - assert (Hadd : Set_add id c = c ++ [id])
        by (unfold Set_add; now rewrite E).
      rewrite Hadd.
      assert (Hlast : ∀ k, (k <= length c)%nat -> id ∈ drop k (c ++ [id])).
      { intros k Hk. rewrite drop_app_le by assumption.
        apply elem_of_app. right. left. }
      destruct (_ >? _); simpl.
      + apply elem_of_refill. right. apply Hlast.
        rewrite length_app. simpl.
        assert (Z.of_nat (length c + 1) / 2 <= Z.of_nat (length c))
          by (Z.div_mod_to_equations; lia).
        lia.
      + apply elem_of_app. right. left. }
  split; [exact Hin|]. now apply isDuplicate_answer.
Qed.

(** C6. From the empty cache, after checking 10,001 distinct ids one
    after the other, a re-check of any of the first 5,000 answers false and
    a re-check of any of the last 5,001 answers true. *)
Theorem eviction_keeps_newer_half (ids : list Z) :
  NoDup ids -> Z.of_nat (length ids) = 10001 ->
  (∀ (i : nat) (id : Z), ids !! i = Some id -> Z.of_nat i < 5000 ->
     (isDuplicate id (checks ids [])).1 = false)
  /\ (∀ (i : nat) (id : Z), ids !! i = Some id -> 5000 <= Z.of_nat i ->
     (isDuplicate id (checks ids [])).1 = true).
Proof.
  intros Hnd Hlen.
  assert (Hcache : checks ids [] = drop (Z.to_nat 5000) ids).
  { destruct ids as [|x pre _] using rev_ind; [simpl in Hlen; lia|].
    rewrite length_app in Hlen. simpl in Hlen.
    assert (Hpre : NoDup pre) by (apply NoDup_app in Hnd; tauto).
    assert (Hx : x ∉ pre).
    { apply NoDup_app in Hnd as (_ & Hdisj & _).
      intros Hin. apply (Hdisj x Hin). left. }
    rewrite checks_app, (checks_fresh pre []) by (simpl; first [assumption | lia]).
    change (checks [x] ([] ++ pre)) with (isDuplicate x pre).2.
    rewrite isDuplicate_new by assumption. simpl.
    rewrite length_app. simpl.
    replace (Z.of_nat (length pre + 1)) with 10001 by lia.
    reflexivity. }
  rewrite Hcache. split; intros i id Hi Hrange.
  - destruct (isDuplicate id (drop (Z.to_nat 5000) ids)).1 eqn:E;
      [|reflexivity].
    apply isDuplicate_answer, list_elem_of_lookup in E as [j Hj].
    rewrite lookup_drop in Hj.
    pose proof (NoDup_lookup _ _ _ _ Hnd Hi Hj). lia.
  - apply isDuplicate_answer, list_elem_of_lookup.
    exists (i - Z.to_nat 5000)%nat. rewrite lookup_drop.
    replace (Z.to_nat 5000 + (i - Z.to_nat 5000))%nat with i by lia.
    exact Hi.
Qed.

Lemma NoDup_snoc (l : list Z) (x : Z) : NoDup l -> x ∉ l -> NoDup (l ++ [x]).
Proof.
  intros Hnd Hx. apply NoDup_app. repeat split; try assumption.
  - intros y Hy Hy'. apply list_elem_of_singleton in Hy'. now subst.
  - apply NoDup_singleton.
Qed.

Lemma distinct_others_le_length (id : Z) (ids : list Z) :
  distinct_others id ids <= Z.of_nat (length ids).
Proof.
  unfold distinct_others. apply inj_le.
  etransitivity; [|apply (length_filter (λ x, x ≠ id))].
  apply submseteq_length, NoDup_submseteq; [apply NoDup_remove_dups|].
  intros x. now rewrite elem_of_remove_dups.
Qed.

Lemma eviction_keeps_newer_half_witness :
  (isDuplicate 1 (checks (seqZ 1 10001) [])).1 = false
  /\ (isDuplicate 10001 (checks (seqZ 1 10001) [])).1 = true.
Proof.
  destruct (eviction_keeps_newer_half (seqZ 1 10001)) as [Hold Hnew].
  - apply NoDup_seqZ.
  - rewrite length_seqZ. lia.
  - split.
    + apply (Hold 0%nat); [apply lookup_seqZ; lia | lia].
    + apply (Hnew (Z.to_nat 10000)); [apply lookup_seqZ; lia | lia].
Defined.

(** Counting the distinct ids of a run of checks, with the ids already
    seen in front. *)
Lemma distinct_skip (id x : Z) (seen others : list Z) :
  (length (remove_dups (seen ++ filter (λ y, y ≠ id) others))
   <= length (remove_dups (seen ++ filter (λ y, y ≠ id) (x :: others))))%nat.
Proof.
  apply submseteq_length, NoDup_submseteq; [apply NoDup_remove_dups|].
  intros y. rewrite !elem_of_remove_dups, !elem_of_app, !list_elem_of_filter.
  rewrite elem_of_cons. tauto.
Qed.

Lemma distinct_shift (id x : Z) (seen others : list Z) :
  x ≠ id ->
  (length (remove_dups ((seen ++ [x]) ++ filter (λ y, y ≠ id) others))
   <= length (remove_dups (seen ++ filter (λ y, y ≠ id) (x :: others))))%nat.
Proof.
  intros Hx.
  apply submseteq_length, NoDup_submseteq; [apply NoDup_remove_dups|].
  intros y. rewrite !elem_of_remove_dups, !elem_of_app, !list_elem_of_filter.
  rewrite list_elem_of_singleton, elem_of_cons.
  intros [[?| ->]|[? ?]]; tauto.
Qed.

Lemma distinct_covers (post seen rest : list Z) :
  NoDup post -> (∀ x, x ∈ post -> x ∈ seen) ->
  (length post <= length (remove_dups (seen ++ rest)))%nat.
Proof.
  intros Hnd Hsub. apply submseteq_length, NoDup_submseteq; [assumption|].
  intros y Hy. apply elem_of_remove_dups, elem_of_app. left. auto.
Qed.

(** An id stays in the cache while the ids added behind it are few: they
    all sit after it, so an eviction that finds at most 5,000 of them cuts
    in front of it. *)
Lemma id_survives (id : Z) (others seen pre post : list Z) :
  NoDup (pre ++ id :: post) ->
  Z.of_nat (length (pre ++ id :: post)) <= 10000 ->
  (∀ x, x ∈ post -> x ∈ seen) ->
  Z.of_nat (length (remove_dups (seen ++ filter (λ x, x ≠ id) others)))
    <= 5000 ->
  id ∈ checks others (pre ++ id :: post).
Proof.
  revert seen pre post.
  induction others as [|x others IH]; intros seen pre post Hnd Hlen Hseen Hfew.
  { simpl. apply elem_of_app. right. left. }
  rewrite checks_cons.
  destruct (decide (x ∈ pre ++ id :: post)) as [Hin|Hnew].
  - rewrite isDuplicate_seen by assumption. simpl.
    apply (IH seen); try assumption.
    pose proof (distinct_skip id x seen others). lia.
  - assert (Hxid : x ≠ id).
    { intros ->. apply Hnew, elem_of_app. right. left. }
    assert (Hpost : NoDup (post ++ [x])).
    { apply NoDup_snoc.
      - apply NoDup_app in Hnd as (_ & _ & Hnd). now apply NoDup_cons in Hnd.
      - intros Hx. apply Hnew, elem_of_app. right. now right. }
    assert (Hseen' : ∀ y, y ∈ post ++ [x] -> y ∈ seen ++ [x]).
    { intros y. rewrite !elem_of_app. intros [?|?]; auto. }
    pose proof (distinct_shift id x seen others Hxid) as Hshift.
    pose proof (distinct_covers (post ++ [x]) (seen ++ [x])
                  (filter (λ y, y ≠ id) others) Hpost Hseen') as Hbehind.
    assert (Hnd' : NoDup (pre ++ id :: post ++ [x])).
    { change (id :: post ++ [x]) with ((id :: post) ++ [x]).
      rewrite app_assoc. now apply NoDup_snoc. }
    rewrite isDuplicate_new
      by (try assumption; apply NoDup_app in Hnd; tauto).
    simpl.
    replace ((pre ++ id :: post) ++ [x]) with (pre ++ id :: post ++ [x])
      by (now rewrite <- app_assoc).
    destruct (Z.gtb_spec (Z.of_nat (length (pre ++ id :: post ++ [x]))) 10000)
      as [Hbig|Hsmall].
    + assert (Hfull : Z.of_nat (length (pre ++ id :: post ++ [x])) = 10001).
      { rewrite !length_app in *. simpl in *. rewrite !length_app in *.
        simpl in *. lia. }
      rewrite Hfull.
      change (Z.to_nat (10001 / 2)) with (Z.to_nat 5000).
      assert (Hcut : (Z.to_nat 5000 <= length pre)%nat).
      { rewrite !length_app in *. simpl in *. rewrite !length_app in *.
        simpl in *. lia. }
      rewrite drop_app_le by assumption.
      apply (IH (seen ++ [x])); try assumption; try lia.
      * rewrite <- (drop_app_le _ (id :: post ++ [x])) by assumption.
        eapply sublist_NoDup; [exact Hnd' | apply sublist_drop].
      * rewrite !length_app in *. simpl in *. rewrite !length_app in *.
        rewrite length_drop. simpl in *. lia.
    + apply (IH (seen ++ [x])); try assumption; lia.
Qed.

(** An id stays in the cache while the cache cannot overflow: the entries
    that were there with it and the distinct ids checked since stay within
    the capacity, so nothing is ever evicted. *)
Lemma id_stays_below_capacity (id : Z) (others seen held post : list Z) :
  id ∈ held ->
  NoDup (held ++ post) ->
  (∀ x, x ∈ post -> x ∈ seen) ->
  Z.of_nat (length held)
  + Z.of_nat (length (remove_dups (seen ++ filter (λ x, x ≠ id) others)))
    <= 10000 ->
  id ∈ checks others (held ++ post).
Proof.
  intros Hid. revert seen post.
  induction others as [|x others IH]; intros seen post Hnd Hseen Hfew.
  { simpl. apply elem_of_app. now left. }
  rewrite checks_cons.
  destruct (decide (x ∈ held ++ post)) as [Hin|Hnew].
  - rewrite isDuplicate_seen by assumption. simpl.
    apply (IH seen); try assumption.
    pose proof (distinct_skip id x seen others). lia.
  - assert (Hxid : x ≠ id).
    { intros ->. apply Hnew, elem_of_app. now left. }
    assert (Hnd' : NoDup (held ++ post ++ [x])).
    { rewrite app_assoc. now apply NoDup_snoc. }
    assert (Hpost : NoDup (post ++ [x]))
      by (apply NoDup_app in Hnd'; tauto).
    assert (Hseen' : ∀ y, y ∈ post ++ [x] -> y ∈ seen ++ [x]).
    { intros y. rewrite !elem_of_app. intros [?|?]; auto. }
    pose proof (distinct_shift id x seen others Hxid) as Hshift.
    pose proof (distinct_covers (post ++ [x]) (seen ++ [x])
                  (filter (λ y, y ≠ id) others) Hpost Hseen') as Hbehind.
    rewrite isDuplicate_new by assumption. simpl.
    rewrite <- app_assoc.
    destruct (Z.gtb_spec (Z.of_nat (length (held ++ post ++ [x]))) 10000)
      as [Hbig|_].
    + rewrite length_app in Hbig. lia.
    + apply (IH (seen ++ [x])); try assumption; lia.
Qed.

(** C5, as the code has it.  From a cache of fewer than 10,000 entries that
    does not hold [id], the first check of [id] answers false and records
    it, and a check of [id] answers true after any run of further checks
    ([take k others] is the run up to any moment of it) that names at
    most 5,000 distinct other ids, or that names so few that the entries
    held at the start and the other ids together stay below 10,000, which
    is when no eviction can occur. *)
Theorem dedup_remembers (c : IdSet) (id : Z) (others : list Z) (k : nat) :
  NoDup c ->
  Z.of_nat (length c) < 10000 ->
  id ∉ c ->
  distinct_others id others <= 5000
  \/ Z.of_nat (length c) + distinct_others id others < 10000 ->
  (isDuplicate id c).1 = false
  /\ id ∈ (isDuplicate id c).2
  /\ (isDuplicate id (checks (take k others) (isDuplicate id c).2)).1 = true.
Proof.
  intros Hnd Hlen Hnew Hfew.
  rewrite isDuplicate_new by assumption. simpl.
  destruct (Z.gtb_spec (Z.of_nat (length (c ++ [id]))) 10000) as [Hbig|_];
    [rewrite length_app in Hbig; simpl in Hbig; lia|].
  split; [reflexivity|].
  split; [apply elem_of_app; right; left|].
  apply isDuplicate_answer.
  assert (Htake : distinct_others id (take k others)
                  <= distinct_others id others).
  { unfold distinct_others.
    apply inj_le, submseteq_length, NoDup_submseteq;
      [apply NoDup_remove_dups|].
    intros y. rewrite !elem_of_remove_dups, !list_elem_of_filter.
    intros [Hy Hin]. split; [assumption|].
    eapply elem_of_sublist; [exact Hin | apply sublist_take]. }
  unfold distinct_others in *.
  destruct Hfew as [Hfew|Hfew].
  - apply (id_survives id (take k others) [] c []).
    + now apply NoDup_snoc.
    + rewrite length_app. simpl. lia.
    + intros x Hx. inversion Hx.
    + simpl. lia.
  - rewrite <- (app_nil_r (c ++ [id])).
    apply (id_stays_below_capacity id (take k others) []).
    + apply elem_of_app. right. left.
    + rewrite app_nil_r. now apply NoDup_snoc.
    + intros x Hx. inversion Hx.
    + rewrite length_app. simpl. lia.
Qed.

Lemma dedup_remembers_witness :
  (isDuplicate 7 [1; 2]).1 = false
  /\ 7 ∈ (isDuplicate 7 [1; 2]).2
  /\ (isDuplicate 7 (checks (take 3 [3; 7; 4; 3]) (isDuplicate 7 [1; 2]).2)).1
     = true.
Proof.
  apply (dedup_remembers [1; 2] 7 [3; 7; 4; 3] 3).
  - apply (NoDup_seqZ 1 2).
  - simpl. lia.
  - intros Hin. apply (elem_of_seqZ 1 2) in Hin. lia.
  - left. etransitivity; [apply distinct_others_le_length|]. simpl. lia.
Defined.

(** A fresh id that finds the cache full: the older 5,000 entries go. *)
Lemma isDuplicate_evicts (id : Z) (c : IdSet) :
  id ∉ c -> NoDup c -> Z.of_nat (length c) = 10000 ->
  isDuplicate id c = (false, drop (Z.to_nat 5000) (c ++ [id])).
Proof.
  intros Hnew Hnd Hlen. rewrite isDuplicate_new by assumption.
  rewrite length_app. simpl length.
  replace (Z.of_nat (length c + 1)) with 10001 by lia. reflexivity.
Qed.

(** Against C5 with its bound of 10,000 other ids: a cache of 9,999
    entries takes [id], one more id
    triggers an eviction that leaves [id] among the oldest 5,000 of the
    survivors, and the 5,000 ids after that push it out; 5,001 distinct
    other ids in all, well below 10,000. *)
Lemma dedup_forgets_below_10000 :
  let c := seqZ 1 9999 in
  let id := 0 in
  let others := seqZ 10001 5001 in
  NoDup c
  /\ Z.of_nat (length c) < 10000
  /\ (id ∉ c)
  /\ distinct_others id others < 10000
  /\ (isDuplicate id c).1 = false
  /\ (isDuplicate id (checks others (isDuplicate id c).2)).1 = false.
Proof.
  cbv zeta.
  assert (Hc : NoDup (seqZ 1 9999)) by apply NoDup_seqZ.
  assert (H0 : 0 ∉ seqZ 1 9999)
    by (intros Hin; apply elem_of_seqZ in Hin; lia).
  split; [exact Hc|].
  split; [rewrite length_seqZ; lia|].
  split; [exact H0|].
  split.
  { eapply Z.le_lt_trans; [apply distinct_others_le_length|].
    rewrite length_seqZ; lia. }
  (* the first check of 0 fills the cache to 10,000 entries *)
  assert (Hfirst : isDuplicate 0 (seqZ 1 9999) = (false, seqZ 1 9999 ++ [0])).
  { rewrite isDuplicate_new by assumption.
    destruct (Z.gtb_spec (Z.of_nat (length (seqZ 1 9999 ++ [0]))) 10000)
      as [Hbig|_]; [|reflexivity].
    rewrite length_app, length_seqZ in Hbig.
    change (length [0]) with 1%nat in Hbig. lia. }
  rewrite Hfirst. split; [reflexivity|].
  change ((false, seqZ 1 9999 ++ [0]).2) with (seqZ 1 9999 ++ [0]).
  assert (Eold : seqZ 1 9999 = seqZ 1 5000 ++ seqZ 5001 4999)
    by (apply (seqZ_app 1 5000 4999); lia).
  assert (Enew : seqZ 10001 5001 = 10001 :: seqZ 10002 4999 ++ [15001]).
  { rewrite (seqZ_cons 10001 5001) by lia.
    change (Z.succ 10001) with 10002. change (Z.pred 5001) with (4999 + 1).
    rewrite (seqZ_app 10002 4999 1) by lia. reflexivity. }
  rewrite Enew, checks_cons.
  (* 10001 evicts 1..5000 *)
  rewrite (isDuplicate_evicts 10001 (seqZ 1 9999 ++ [0])); cycle 1.
  { rewrite elem_of_app, elem_of_seqZ, list_elem_of_singleton. lia. }
  { apply NoDup_snoc; assumption. }
  { rewrite length_app, length_seqZ. change (length [0]) with 1%nat. lia. }
  change ((false, ?l).2) with l.
  assert (Ecut : drop (Z.to_nat 5000) ((seqZ 1 9999 ++ [0]) ++ [10001])
                 = seqZ 5001 4999 ++ [0; 10001]).
  { rewrite Eold, <- !app_assoc. apply drop_app_length'.
    rewrite length_seqZ. reflexivity. }
  rewrite Ecut, checks_app.
  (* 10002..15000 fill the cache again *)
  assert (Hfull : NoDup ((seqZ 5001 4999 ++ [0; 10001]) ++ seqZ 10002 4999)).
  { rewrite <- app_assoc. apply NoDup_app.
    split; [apply NoDup_seqZ|]. split.
    - intros x Hx. apply elem_of_seqZ in Hx.
      rewrite elem_of_app, !elem_of_cons, elem_of_nil, elem_of_seqZ. lia.
    - change ([0; 10001] ++ seqZ 10002 4999)
        with (0 :: 10001 :: seqZ 10002 4999).
      apply NoDup_cons.
      split; [rewrite elem_of_cons, elem_of_seqZ; lia|].
      apply NoDup_cons. split; [rewrite elem_of_seqZ; lia | apply NoDup_seqZ]. }
  rewrite (checks_fresh (seqZ 10002 4999) (seqZ 5001 4999 ++ [0; 10001]));
    [|exact Hfull|]; cycle 1.
  { rewrite !length_app, !length_seqZ.
    change (length [0; 10001]) with 2%nat. lia. }
  (* 15001 evicts 5001..9999 and 0 *)
  change (checks [15001] ?c) with (isDuplicate 15001 c).2.
  rewrite (isDuplicate_evicts 15001
             ((seqZ 5001 4999 ++ [0; 10001]) ++ seqZ 10002 4999)); cycle 1.
  { rewrite !elem_of_app, !elem_of_seqZ, !elem_of_cons, elem_of_nil. lia. }
  { exact Hfull. }
  { rewrite !length_app, !length_seqZ.
    change (length [0; 10001]) with 2%nat. lia. }
  change ((false, ?l).2) with l.
  assert (Ecut' :
    drop (Z.to_nat 5000)
      (((seqZ 5001 4999 ++ [0; 10001]) ++ seqZ 10002 4999) ++ [15001])
    = 10001 :: seqZ 10002 4999 ++ [15001]).
  { replace (((seqZ 5001 4999 ++ [0; 10001]) ++ seqZ 10002 4999) ++ [15001])
      with ((seqZ 5001 4999 ++ [0])
            ++ 10001 :: seqZ 10002 4999 ++ [15001])
      by (now rewrite <- !app_assoc).
    apply drop_app_length'. rewrite length_app, length_seqZ.
    change (length [0]) with 1%nat. lia. }
  rewrite Ecut'.
  destruct (isDuplicate 0 (10001 :: seqZ 10002 4999 ++ [15001])).1 eqn:E;
    [|reflexivity].
  apply isDuplicate_answer in E.
  rewrite elem_of_cons, elem_of_app, elem_of_seqZ, list_elem_of_singleton in E.
  lia.
Qed.

End Dedup.

Section Router.
Context `{Platform}.

(** What [deserialize] returns passes the constructor's checks and fits
    the wire fields. *)
Lemma deserialize_valid (data : list byte) (m : Message) :
  deserialize data = Normal (Some m) -> valid m /\ fits_wire m.
Proof.
  rewrite deserialize_eq.
  destruct (Nat.ltb_spec (length data) 8) as [Hlt|Hge]; [discriminate|].
  destruct (Z.ltb_spec (Z.of_nat (length data)) (8 + field_length data));
    [discriminate|].
  destruct (field_ranges data Hge) as (Rt & Rl & Ri & Rn).
  set (p := slice data 8 (8 + Z.to_nat (field_length data))).
  destruct (decide (7 < field_ttl data \/ 65535 < Z.of_nat (length p)))
    as [Hbad|Hok].
  - destruct (Message_new_throws (field_type data) (field_ttl data)
                (field_id data) p) as [e ->]; [lia | discriminate].
  - rewrite Message_new_ok by lia. intros [= <-].
    unfold valid, fits_wire, payload_length. simpl. lia.
Qed.

Lemma frame_eq (m : Message) :
  payload_length m <= 65535 ->
  frame m
  = Normal (be_bytes32 (Z.of_nat (8 + length (payload m)))
            ++ ToUint8 (msgType m) :: ToUint8 (ttl m)
            :: be_bytes32 (msgId m) ++ be_bytes16 (payload_length m)
            ++ payload m).
Proof.
  intros Hp. unfold frame. rewrite serialize_eq.
  change (Normal ?bs ≫= ?k) with (k bs). cbv beta.
  set (bs := ToUint8 (msgType m) :: _).
  assert (Hlen : length bs = (8 + length (payload m))%nat) by reflexivity.
  rewrite Hlen. unfold writeUInt32BE, payload_length in *.
  destruct (Z.leb_spec 0 (Z.of_nat (8 + length (payload m)))); [|lia].
  destruct (Z.ltb_spec (Z.of_nat (8 + length (payload m))) (2 ^ 32));
    [reflexivity | lia].
Qed.

(** The type code is the fifth byte of a frame. *)
Lemma frame_type_byte (m : Message) (data : list byte) :
  payload_length m <= 65535 ->
  frame m = Normal data -> data !! 4%nat = Some (ToUint8 (msgType m)).
Proof.
  intros Hp. rewrite frame_eq by assumption. intros [= <-]. reflexivity.
Qed.

Lemma writes_to_app (k : string) (t1 t2 : list event) :
  writes_to k (t1 ++ t2) = writes_to k t1 ++ writes_to k t2.
Proof. unfold writes_to. apply omap_app. Qed.

(** One pass of [forwardMessage] over the connection entries writes the
    frame once to every key other than the excluded one. *)
Lemma writes_to_forward (l : list (string * socket)) (data : list byte)
    (from k : string) :
  NoDup l.*1 ->
  writes_to k ((λ kv : string * socket, SocketWrite kv.1 kv.2 data)
                 <$> filter (λ kv : string * socket, Some kv.1 ≠ Some from) l)
  = if decide (k ≠ from /\ k ∈ l.*1) then [data] else [].
Proof.
  induction l as [|[k' s] l IH]; intros Hnd.
  - simpl. destruct (decide _) as [[_ Hin]|_]; [inversion Hin | reflexivity].
  - rewrite fmap_cons in Hnd. apply NoDup_cons in Hnd as [Hk' Hnd].
    specialize (IH Hnd). rewrite filter_cons. simpl fst.
    destruct (decide (Some k' ≠ Some from)) as [Hne|Heq].
    + rewrite fmap_cons. simpl. destruct (decide (k' = k)) as [->|Hkk].
      * rewrite IH.
        destruct (decide (k ≠ from ∧ k ∈ l.*1)) as [[_ Hin]|_]; [tauto|].
        destruct (decide _) as [_|Hno]; [reflexivity|].
        exfalso. apply Hno. split; [congruence | left].
      * fold (writes_to k
                ((λ kv : string * socket, SocketWrite kv.1 kv.2 data)
                   <$> filter (λ kv : string * socket, Some kv.1 ≠ Some from)
                         l)).
        rewrite IH.
        destruct (decide (k ≠ from ∧ k ∈ l.*1)) as [[Hkf Hin]|Hno].
        -- destruct (decide _) as [_|Hno']; [reflexivity|].
           exfalso. apply Hno'. split; [assumption | now right].
        -- destruct (decide _) as [[Hkf Hin]|_]; [|reflexivity].
           apply elem_of_cons in Hin as [->|Hin]; [simpl in *; congruence | tauto].
    + assert (k' = from) as ->.
      { destruct (decide (k' = from)) as [?|Hne]; [assumption|].
        exfalso. apply Heq. congruence. }
      rewrite IH.
      destruct (decide (k ≠ from ∧ k ∈ l.*1)) as [[Hkf Hin]|Hno].
      * destruct (decide _) as [_|Hno']; [reflexivity|].
        exfalso. apply Hno'. split; [assumption | now right].
      * destruct (decide _) as [[Hkf Hin]|_]; [|reflexivity].
        apply elem_of_cons in Hin as [->|Hin]; [simpl in *; congruence | tauto].
Qed.

Lemma forwardMessage_writes (st : P2PNetworkManager) (m : Message)
    (from : string) :
  payload_length m <= 65535 ->
  ∃ data evs,
    frame m = Normal data
    /\ forwardMessage st m (Some from) = Normal evs
    /\ ∀ k, writes_to k evs
            = if decide (k ≠ from /\ is_Some (connections st !! k))
              then [data] else [].
Proof.
  intros Hp. unfold forwardMessage. rewrite frame_eq by assumption.
  eexists _, _. split; [reflexivity|]. split; [reflexivity|].
  intros k. rewrite writes_to_forward by apply NoDup_fst_map_to_list.
  assert (Hdom : k ∈ (map_to_list (connections st)).*1
                 <-> is_Some (connections st !! k)).
  { rewrite list_elem_of_fmap. split.
    - intros ([k' s] & -> & Hin). apply elem_of_map_to_list in Hin. eauto.
    - intros [s Hs]. exists (k, s). split; [reflexivity|].
      now apply elem_of_map_to_list. }
  destruct (decide (k ≠ from ∧ k ∈ _)) as [Hy|Hn];
    destruct (decide (k ≠ from ∧ is_Some _)) as [Hy'|Hn'];
    try reflexivity; tauto.
Qed.

Lemma pong_new (now rnd : Z) :
  Message_new MessageType.PONG 1 (generateMessageId now rnd []) []
  = Normal (mkMessage MessageType.PONG 1 (generateMessageId now rnd []) []).
Proof. reflexivity. Qed.

(** A frame of a PONG is not a frame of a PING: the type bytes differ. *)
Lemma pong_frame_not_ping (pong m : Message) (data : list byte) :
  msgType pong = MessageType.PONG -> msgType m = MessageType.PING ->
  payload_length pong <= 65535 -> payload_length m <= 65535 ->
  frame pong = Normal data -> ¬ carries data m.
Proof.
  intros Hpong Hping Hp Hm Hframe [l Hl].
  apply frame_type_byte in Hframe; [|assumption].
  apply frame_type_byte in Hl; [|assumption].
  simpl in Hl. rewrite Hframe, Hpong, Hping in Hl. discriminate Hl.
Qed.

(** What the handler of a message's type does: it never throws, leaves
    the connection table and the keys of the registry alone, and writes
    nothing, except that the PING handler writes one PONG frame to the
    sender when the sender is connected. *)
Lemma handler_effects (st : P2PNetworkManager) (e : env) (m : Message)
    (from : string) :
  ∃ st1 tr1,
    match messageHandlers (msgType m) with
    | Some handler => handler st e m from
    | None => Normal (st, [])
    end = Normal (st1, tr1)
    /\ connections st1 = connections st
    /\ dom (peers st1) = dom (peers st)
    /\ (msgType m ≠ MessageType.PING -> ∀ k, writes_to k tr1 = [])
    /\ (msgType m = MessageType.PING ->
        ∃ data,
          frame (mkMessage MessageType.PONG 1
                   (generateMessageId (env_now e) (env_rnd e) []) [])
          = Normal data
          /\ tr1 = match connections st !! from with
                   | Some s => [SocketWrite from s data]
                   | None => []
                   end).
Proof.
  unfold messageHandlers.
  destruct (decide (msgType m = MessageType.PING)) as [Hping|Hnping].
  { unfold handlePing. rewrite pong_new.
    change (Normal ?a ≫= ?k) with (k a). cbv beta.
    unfold sendToPeer.
    rewrite frame_eq by (unfold payload_length; simpl; lia).
    destruct (connections st !! from) as [s|] eqn:Hs;
      (eexists _, _; split; [reflexivity|]);
      (split; [reflexivity|]); (split; [reflexivity|]);
      (split; [intros Hne; contradiction|]);
      intros _; eexists; (split; [reflexivity|]); reflexivity. }
  assert (Hnone : ∀ st1 : P2PNetworkManager,
    connections st1 = connections st -> dom (peers st1) = dom (peers st) ->
    ∃ st1' tr1, Normal (st1, @nil event) = Normal (st1', tr1)
      /\ connections st1' = connections st
      /\ dom (peers st1') = dom (peers st)
      /\ (msgType m ≠ MessageType.PING -> ∀ k, writes_to k tr1 = [])
      /\ (msgType m = MessageType.PING ->
          ∃ data,
            frame (mkMessage MessageType.PONG 1
                     (generateMessageId (env_now e) (env_rnd e) []) [])
            = Normal data
            /\ tr1 = match connections st !! from with
                     | Some s => [SocketWrite from s data]
                     | None => []
                     end)).
  { intros st1 Hc Hd. exists st1, []. repeat split; try assumption.
    intros Hping. contradiction. }
  destruct (decide (msgType m = MessageType.PONG)).
  { unfold handlePong. apply Hnone; [reflexivity|]. simpl.
    apply dom_alter_L. }
  destruct (decide (msgType m = MessageType.PEER_DISCOVERY)).
  { unfold handlePeerDiscovery. now apply Hnone. }
  destruct (decide (msgType m = MessageType.PEER_ANNOUNCEMENT)).
  { unfold handlePeerAnnouncement.
    destruct (peers st !! from) as [peer|] eqn:Hpeer;
      [destruct (decodeNickname (payload m)) as [nick|]|];
      try (now apply Hnone).
    apply Hnone; [reflexivity|]. simpl.
    rewrite dom_insert_L.
    assert (Hin : from ∈ dom (peers st)) by (apply elem_of_dom; eauto).
    apply subseteq_union_1_L, singleton_subseteq_l, Hin. }
  destruct (decide (msgType m = MessageType.CHAT_MESSAGE)).
  { unfold handleChatMessage. eexists _, _. split; [reflexivity|].
    repeat split; try reflexivity. intros Hping. contradiction. }
  now apply Hnone.
Qed.

(** [handleMessage] on a message that passes the constructor's checks:
    the handler's trace, then one frame with the decremented budget per
    connection other than the sender's when the budget was positive. *)
Lemma handleMessage_effects (st : P2PNetworkManager) (e : env) (m : Message)
    (from : string) :
  valid m ->
  ∃ st1 tr1 tr2,
    handleMessage st e m from = Normal (st1, tr1 ++ tr2)
    /\ match messageHandlers (msgType m) with
       | Some handler => handler st e m from
       | None => Normal (st, [])
       end = Normal (st1, tr1)
    /\ connections st1 = connections st
    /\ dom (peers st1) = dom (peers st)
    /\ (ttl m = 0 -> tr2 = [])
    /\ (0 < ttl m ->
        ∃ data,
          frame (with_ttl (ttl m - 1) m) = Normal data
          /\ ∀ k, writes_to k tr2
                  = if decide (k ≠ from /\ is_Some (connections st !! k))
                    then [data] else []).
Proof.
  intros [Httl Hp].
  destruct (handler_effects st e m from)
    as (st1 & tr1 & Hh & Hconn & Hdom & _).
  unfold handleMessage. rewrite Hh.
  change (Normal ?a ≫= ?k) with (k a). cbv beta. simpl fst. simpl snd.
  destruct (Z.gtb_spec (ttl m) 0) as [Hpos|Hzero].
  - destruct (forwardMessage_writes st1 (with_ttl (ttl m - 1) m) from Hp)
      as (data & evs & Hf & Hfw & Hw).
    unfold with_ttl in Hfw. rewrite Hfw.
    exists st1, tr1, evs. split; [reflexivity|]. split; [reflexivity|].
    split; [assumption|]. split; [assumption|]. split; [lia|].
    intros _. exists data. split; [assumption|].
    intros k. rewrite Hw, Hconn. reflexivity.
  - exists st1, tr1, []. rewrite app_nil_r.
    split; [reflexivity|]. split; [reflexivity|].
    split; [assumption|]. split; [assumption|]. split; [reflexivity|]. lia.
Qed.

(** No handler writes a frame of the message it handles. *)
Lemma handler_writes_foreign (st st1 : P2PNetworkManager) (e : env)
    (m : Message) (from : string) (tr1 : list event) :
  valid m ->
  match messageHandlers (msgType m) with
  | Some handler => handler st e m from
  | None => Normal (st, [])
  end = Normal (st1, tr1) ->
  (∀ k, k ≠ from -> writes_to k tr1 = [])
  /\ (∀ k data, data ∈ writes_to k tr1 -> ¬ carries data m).
Proof.
  intros [_ Hp] Hh.
  destruct (handler_effects st e m from)
    as (st1' & tr1' & Hh' & _ & _ & Hother & Hping).
  rewrite Hh in Hh'. injection Hh' as <- <-.
  destruct (decide (msgType m = MessageType.PING)) as [Hty|Hty].
  - destruct (Hping Hty) as (data & Hframe & ->).
    destruct (connections st !! from) as [s|]; simpl.
    + split.
      * intros k Hk. destruct (decide (from = k)); [congruence|reflexivity].
      * intros k d. destruct (decide (from = k)); [|intros Hd; inversion Hd].
        intros Hd. apply list_elem_of_singleton in Hd as ->.
        apply (pong_frame_not_ping
                 (mkMessage MessageType.PONG 1
                    (generateMessageId (env_now e) (env_rnd e) []) []) m);
          [reflexivity | exact Hty | | exact Hp | exact Hframe].
        unfold payload_length. simpl. lia.
    + split; [reflexivity | intros k d Hd; inversion Hd].
  - split; [intros k _; now apply Hother|].
    intros k d. rewrite (Hother Hty k). intros Hd. inversion Hd.
Qed.

(** C3. A decoded message that is not a duplicate: with [ttl = 0] no
    socket is handed a frame of it; with [ttl = k > 0] every connection
    other than the sender's is handed exactly one buffer, the frame of the
    message with [ttl = k - 1], and the sender's is handed no frame of
    it. *)
Theorem forwarding_by_ttl (st : P2PNetworkManager) (e : env)
    (message : Message) (fromPeerKey : string) :
  valid message ->
  (isDuplicate (msgId message) (messageCache st)).1 = false ->
  ∃ st' trace,
    onMessageDecoded st e message fromPeerKey = Normal (st', trace)
    /\ (ttl message = 0 ->
        ∀ k data, data ∈ writes_to k trace -> ¬ carries data message)
    /\ (0 < ttl message ->
        ∃ data,
          frame (with_ttl (ttl message - 1) message) = Normal data
          /\ (∀ k, k ≠ fromPeerKey -> is_Some (connections st !! k) ->
                 writes_to k trace = [data])
          /\ (∀ k, k ≠ fromPeerKey -> connections st !! k = None ->
                 writes_to k trace = [])
          /\ (∀ d, d ∈ writes_to fromPeerKey trace -> ¬ carries d message)).
Proof.
  intros Hv Hnew. unfold onMessageDecoded. rewrite Hnew.
  set (st0 := with_cache _ st).
  destruct (handleMessage_effects st0 e message fromPeerKey Hv)
    as (st1 & tr1 & tr2 & Hrun & Hh & Hconn & _ & Hzero & Hpos).
  destruct (handler_writes_foreign _ _ _ _ _ _ Hv Hh) as [Hother Hforeign].
  exists st1, (tr1 ++ tr2). split; [exact Hrun|]. split.
  - intros Httl k data. rewrite (Hzero Httl), app_nil_r. apply Hforeign.
  - intros Httl. destruct (Hpos Httl) as (data & Hframe & Hw).
    exists data. split; [exact Hframe|].
    change (connections st0) with (connections st) in Hw.
    split; [|split].
    + intros k Hk Hs. rewrite writes_to_app, (Hother k Hk), Hw.
      destruct (decide _) as [_|Hno]; [reflexivity | tauto].
    + intros k Hk Hs. rewrite writes_to_app, (Hother k Hk), Hw.
      destruct (decide _) as [[_ [s Hs']]|_]; [congruence | reflexivity].
    + intros d. rewrite writes_to_app, Hw.
      destruct (decide _) as [[Hne _]|_]; [congruence|].
      rewrite app_nil_r. apply Hforeign.
Qed.

(** C4, as the code has it.  A PING that is not a duplicate is answered
    with one new PONG frame, written to the sender's socket when the
    sender is connected and to no other socket; the PING itself is relayed
    like any message: to nobody when its [ttl] is 0, and with [ttl - 1] to
    every connection other than the sender's when its [ttl] is positive. *)
Theorem ping_answered_and_relayed (st : P2PNetworkManager) (e : env)
    (message : Message) (fromPeerKey : string) :
  valid message ->
  msgType message = MessageType.PING ->
  (isDuplicate (msgId message) (messageCache st)).1 = false ->
  ∃ st' trace pong_frame,
    onMessageDecoded st e message fromPeerKey = Normal (st', trace)
    /\ frame (mkMessage MessageType.PONG 1
               (generateMessageId (env_now e) (env_rnd e) []) [])
       = Normal pong_frame
    /\ (∀ s, connections st !! fromPeerKey = Some s ->
          (∃ rest, trace = SocketWrite fromPeerKey s pong_frame :: rest)
          /\ writes_to fromPeerKey trace = [pong_frame])
    /\ (connections st !! fromPeerKey = None ->
          writes_to fromPeerKey trace = [])
    /\ (∀ k, k ≠ fromPeerKey -> pong_frame ∉ writes_to k trace)
    /\ (ttl message = 0 ->
          ∀ k, k ≠ fromPeerKey -> writes_to k trace = [])
    /\ (0 < ttl message ->
          ∃ data,
            frame (with_ttl (ttl message - 1) message) = Normal data
            /\ ∀ k, k ≠ fromPeerKey -> is_Some (connections st !! k) ->
                 writes_to k trace = [data]).
Proof.
  intros Hv Hty Hnew. unfold onMessageDecoded. rewrite Hnew.
  set (st0 := with_cache _ st).
  destruct (handleMessage_effects st0 e message fromPeerKey Hv)
    as (st1 & tr1 & tr2 & Hrun & Hh & Hconn & _ & Hzero & Hpos).
  destruct (handler_writes_foreign _ _ _ _ _ _ Hv Hh) as [Hother _].
  destruct (handler_effects st0 e message fromPeerKey)
    as (st1' & tr1' & Hh' & _ & _ & _ & Hping).
  rewrite Hh in Hh'. injection Hh' as <- <-.
  destruct (Hping Hty) as (pong_frame & Hpong & Htr1).
  change (connections st0) with (connections st) in *.
  assert (Hfrom : writes_to fromPeerKey tr2 = []).
  { destruct (Z.le_gt_cases (ttl message) 0) as [Hle|Hgt].
    - destruct Hv as [Hv _]. rewrite Hzero by lia. reflexivity.
    - destruct (Hpos Hgt) as (data & _ & Hw). rewrite Hw.
      destruct (decide _) as [[Hne _]|_]; [congruence | reflexivity]. }
  exists st1, (tr1 ++ tr2), pong_frame.
  split; [exact Hrun|]. split; [exact Hpong|].
  split; [|split; [|split; [|split]]].
  - intros s Hs. rewrite Hs in Htr1. subst tr1. split.
    + exists tr2. reflexivity.
    + rewrite writes_to_app, Hfrom. simpl.
      destruct (decide (fromPeerKey = fromPeerKey)); [reflexivity | congruence].
  - intros Hs. rewrite Hs in Htr1. subst tr1. exact Hfrom.
  - intros k Hk. rewrite writes_to_app, (Hother k Hk). simpl.
    destruct (Z.le_gt_cases (ttl message) 0) as [Hle|Hgt].
    + destruct Hv as [Hv _]. rewrite Hzero by lia. intros Hin. inversion Hin.
    + destruct (Hpos Hgt) as (data & Hframe & Hw). rewrite Hw.
      destruct (decide _) as [_|_]; [|intros Hin; inversion Hin].
      intros Hin. apply list_elem_of_singleton in Hin as ->.
      eapply (pong_frame_not_ping _ message); [| exact Hty | | | exact Hpong|].
      * reflexivity.
      * unfold payload_length. simpl. lia.
      * apply Hv.
      * exists (ttl message - 1). exact Hframe.
  - intros Httl k Hk. rewrite writes_to_app, (Hother k Hk), (Hzero Httl).
    reflexivity.
  - intros Httl. destruct (Hpos Httl) as (data & Hframe & Hw).
    exists data. split; [exact Hframe|].
    intros k Hk Hs. rewrite writes_to_app, (Hother k Hk), Hw.
    destruct (decide _) as [_|Hno]; [reflexivity | tauto].
Qed.

End Router.

Section RouterExamples.

#[local] Existing Instance example_platform.

Lemma forwarding_by_ttl_witness :
  ∃ st' trace data,
    onMessageDecoded example_node example_env
      (mkMessage MessageType.CHAT_MESSAGE 3 77 [x68; x69]) "10.0.0.2:40001"
    = Normal (st', trace)
    /\ frame (mkMessage MessageType.CHAT_MESSAGE 2 77 [x68; x69])
       = Normal data
    /\ writes_to "10.0.0.3:40002" trace = [data].
Proof.
  destruct (forwarding_by_ttl example_node example_env
              (mkMessage MessageType.CHAT_MESSAGE 3 77 [x68; x69])
              "10.0.0.2:40001")
    as (st' & trace & Hrun & _ & Hpos).
  - unfold valid, payload_length. simpl. lia.
  - reflexivity.
  - destruct Hpos as (data & Hframe & Hw & _); [simpl; lia|].
    exists st', trace, data. split; [exact Hrun|]. split; [exact Hframe|].
    apply Hw; [discriminate|]. vm_compute. eauto.
Defined.

Lemma ping_answered_and_relayed_witness :
  ∃ st' trace pong_frame,
    onMessageDecoded example_node example_env example_ping "10.0.0.2:40001"
    = Normal (st', trace)
    /\ (∃ rest, trace = SocketWrite "10.0.0.2:40001" 0%nat pong_frame :: rest)
    /\ writes_to "10.0.0.2:40001" trace = [pong_frame].
Proof.
  destruct (ping_answered_and_relayed example_node example_env example_ping
              "10.0.0.2:40001")
    as (st' & trace & pong_frame & Hrun & _ & Hreply & _).
  - unfold valid, payload_length. simpl. lia.
  - reflexivity.
  - reflexivity.
  - exists st', trace, pong_frame. split; [exact Hrun|].
    apply Hreply. vm_compute. reflexivity.
Defined.

(** Against C4 where it has the PING never forwarded: a PING with one hop
    left, received from
    10.0.0.2, is written with [ttl = 0] to the connection of 10.0.0.3. *)
Lemma ping_is_forwarded :
  valid example_ping
  /\ msgType example_ping = MessageType.PING
  /\ (isDuplicate (msgId example_ping) (messageCache example_node)).1 = false
  /\ ∃ st' trace,
       onMessageDecoded example_node example_env example_ping "10.0.0.2:40001"
       = Normal (st', trace)
       /\ frame (with_ttl 0 example_ping)
          = Normal [x00; x00; x00; x08;
                    x01; x00; x00; x00; x00; x4d; x00; x00]
       /\ SocketWrite "10.0.0.3:40002" 1%nat
            [x00; x00; x00; x08; x01; x00; x00; x00; x00; x4d; x00; x00]
          ∈ trace.
Proof.
  split; [unfold valid, payload_length; simpl; lia|].
  split; [reflexivity|]. split; [reflexivity|].
  eexists _, _. split; [vm_compute; reflexivity|].
  split; [vm_compute; reflexivity|].
  apply list_elem_of_In. vm_compute. tauto.
Qed.

End RouterExamples.

Section Tables.
Context `{Platform}.

Lemma onConnect_tables (st : P2PNetworkManager) (e : env) (address : string)
    (port : Z) (s : socket) :
  connections (onConnect st e address port s).1
  = <[peer_key address port := s]> (connections st)
  /\ peers (onConnect st e address port s).1
     = <[peer_key address port := PeerInfo_new address port (env_now e)]>
         (peers st).
Proof.
  unfold onConnect. destruct (sendPeerAnnouncement _ _ _ _); split; reflexivity.
Qed.

Lemma tables_agree_disconnect (st : P2PNetworkManager) (peerKey : string) :
  tables_agree st -> tables_agree (handlePeerDisconnect st peerKey).1.
Proof.
  unfold tables_agree. simpl. intros Hagree.
  rewrite !dom_delete_L, Hagree. reflexivity.
Qed.

Lemma tables_agree_cleanup (st : P2PNetworkManager) (now : Z) :
  tables_agree st -> tables_agree (cleanup st now).1.
Proof.
  unfold cleanup. destruct (isRunning st); [|trivial].
  generalize ((map_to_list
                 (filter (λ kv : string * PeerInfo,
                            now - lastSeen kv.2 > 5 * 60 * 1000)
                         (peers st))).*1).
  intros stale. generalize (@nil event). revert st.
  induction stale as [|k stale IH]; intros st tr Hagree; [exact Hagree|].
  simpl. apply IH. now apply tables_agree_disconnect.
Qed.

Lemma tables_agree_data (st : P2PNetworkManager) (e : env)
    (messageData : list byte) (peerKey : string) :
  tables_agree st -> tables_agree (onMessageData st e messageData peerKey).1.
Proof.
  intros Hagree. unfold onMessageData.
  destruct (deserialize messageData) as [[m|]|] eqn:Hd; try exact Hagree.
  apply deserialize_valid in Hd as [Hv _].
  unfold onMessageDecoded.
  destruct (isDuplicate (msgId m) (messageCache st)) as [[|] cache'];
    simpl; [exact Hagree|].
  destruct (handleMessage_effects (with_cache cache' st) e m peerKey Hv)
    as (st1 & tr1 & tr2 & Hrun & _ & Hconn & Hdom & _).
  rewrite Hrun. unfold tables_agree in *. simpl.
  rewrite Hconn, Hdom. exact Hagree.
Qed.

(** Every event of the loop other than [stop] keeps the two tables on the
    same keys. *)
Lemma tables_agree_perform (st : P2PNetworkManager) (a : action) :
  a ≠ Stop -> tables_agree st -> tables_agree (perform st a).1.
Proof.
  intros Hstop Hagree.
  destruct a as [| |e address port d|e address port s|e address port s
                |peerKey|now|e messageData peerKey|e text l]; simpl.
  - exact Hagree.
  - contradiction.
  - unfold connectToPeer. destruct (decide _); [exact Hagree|].
    destruct d; [|exact Hagree]. simpl.
    destruct (onConnect_tables st e address port s) as [Hc Hp].
    unfold tables_agree in *. rewrite Hc, Hp, !dom_insert_L, Hagree.
    reflexivity.
  - destruct (onConnect_tables st e address port s) as [Hc Hp].
    unfold tables_agree in *. rewrite Hc, Hp, !dom_insert_L, Hagree.
    reflexivity.
  - unfold tables_agree in *. simpl. rewrite !dom_insert_L, Hagree.
    reflexivity.
  - now apply tables_agree_disconnect.
  - now apply tables_agree_cleanup.
  - now apply tables_agree_data.
  - unfold sendMessage.
    destruct (createChatMessage _ _ _ _) as [m|]; [|exact Hagree].
    change (Normal m ≫= ?k) with (k m). cbv beta.
    destruct (broadcastMessage st m); exact Hagree.
Qed.

Lemma tables_agree_new (port : Z) (nickname : string) :
  tables_agree (P2PNetworkManager_new port nickname).
Proof. reflexivity. Qed.

(** A node that is never stopped keeps the two tables on the same keys. *)
Lemma tables_agree_run (actions : list action) (st : P2PNetworkManager) :
  Stop ∉ actions -> tables_agree st -> tables_agree (run actions st).
Proof.
  revert st. induction actions as [|a actions IH]; intros st Hno Hagree.
  - exact Hagree.
  - simpl. apply IH.
    + intros Hin. apply Hno. now right.
    + apply tables_agree_perform; [|exact Hagree].
      intros ->. apply Hno. left.
Qed.

(** [stop] empties the connection table and leaves the registry as it
    is. *)
Lemma stop_tables (st : P2PNetworkManager) :
  connections (stop st).1 = ∅ /\ peers (stop st).1 = peers st.
Proof. split; reflexivity. Qed.

End Tables.

Section TablesExamples.

#[local] Existing Instance example_platform.

(** C7. The two tables do not hold the same keys in every reachable
    state: [stop] clears the connection table only.  A node that accepted
    two connections has both tables on the same two keys; after [stop] the
    connection table is empty and the registry still holds both peers. *)
Theorem stop_leaves_peer_registry :
  tables_agree example_node
  /\ reachable (stop example_node).1
  /\ connections (stop example_node).1 !! "10.0.0.2:40001" = None
  /\ peers (stop example_node).1 !! "10.0.0.2:40001"
     = Some (PeerInfo_new "10.0.0.2" 40001 1762153237000)
  /\ ¬ tables_agree (stop example_node).1.
Proof.
  split.
  { apply tables_agree_run; [|apply tables_agree_new].
    intros Hin. repeat (apply elem_of_cons in Hin as [Hin|Hin];
                        [discriminate Hin|]).
    inversion Hin. }
  split.
  { exists 8888, "me",
      [Start;
       IncomingConnection example_env "10.0.0.2" 40001 0%nat;
       IncomingConnection example_env "10.0.0.3" 40002 1%nat;
       Stop].
    reflexivity. }
  assert (Hc : connections (stop example_node).1 !! "10.0.0.2:40001" = None)
    by reflexivity.
  assert (Hp : peers (stop example_node).1 !! "10.0.0.2:40001"
               = Some (PeerInfo_new "10.0.0.2" 40001 1762153237000))
    by (vm_compute; reflexivity).
  split; [exact Hc|]. split; [exact Hp|].
  unfold tables_agree. intros Heq.
  assert (Hin : "10.0.0.2:40001" ∈ dom (peers (stop example_node).1))
    by (apply elem_of_dom; rewrite Hp; eauto).
  rewrite <- Heq in Hin. apply elem_of_dom in Hin as [s Hs].
  rewrite Hc in Hs. discriminate Hs.
Qed.

End TablesExamples.

(** * Further properties of the code *)

Section CodecInverse.

Lemma be_bytes16_be_value (a b : byte) : be_bytes16 (be_value [a; b]) = [a; b].
Proof.
  rewrite be_value_2. unfold be_bytes16.
  pose proof (byteval_range a) as Ha. pose proof (byteval_range b) as Hb.
  rewrite Z.shiftr_div_pow2 by lia.
  change (2 ^ 16) with 65536. change (2 ^ 8) with 256.
  rewrite (Z.mod_small (_ + _) 65536) by lia.
  f_equal; [|f_equal]; apply byteval_inj; rewrite byteval_ToUint8;
    generalize dependent (byteval a); generalize dependent (byteval b);
    intros; Z.div_mod_to_equations; lia.
Qed.

Lemma be_bytes32_be_value (a b c d : byte) :
  be_bytes32 (be_value [a; b; c; d]) = [a; b; c; d].
Proof.
  rewrite be_value_4. unfold be_bytes32.
  pose proof (byteval_range a) as Ha. pose proof (byteval_range b) as Hb.
  pose proof (byteval_range c) as Hc. pose proof (byteval_range d) as Hd.
  rewrite !Z.shiftr_div_pow2 by lia.
  change (2 ^ 32) with 4294967296. change (2 ^ 24) with 16777216.
  change (2 ^ 16) with 65536. change (2 ^ 8) with 256.
  rewrite (Z.mod_small (_ + _) 4294967296) by lia.
  f_equal; [|f_equal; [|f_equal; [|f_equal]]];
    apply byteval_inj; rewrite byteval_ToUint8;
    generalize dependent (byteval a); generalize dependent (byteval b);
    generalize dependent (byteval c); generalize dependent (byteval d);
    intros; Z.div_mod_to_equations; lia.
Qed.

(** The bytes [deserialize] consumed, encoded again. *)
Lemma serialize_deserialized (data : list byte) (m : Message) :
  deserialize data = Normal (Some m) ->
  serialize m = Normal (take (8 + length (payload m)) data).
Proof.
  intros Hd. rewrite deserialize_eq in Hd.
  destruct (Nat.ltb_spec (length data) 8) as [|Hge]; [discriminate|].
  destruct (Z.ltb_spec (Z.of_nat (length data)) (8 + field_length data))
    as [|Hfull]; [discriminate|].
  destruct (field_ranges data Hge) as (Rt & Rl & Ri & Rn).
  assert (Hsl : slice data 8 (8 + Z.to_nat (field_length data))
                = take (Z.to_nat (field_length data)) (drop 8 data)).
  { unfold slice. f_equal. lia. }
  rewrite Hsl in Hd. clear Hsl.
  set (p := take (Z.to_nat (field_length data)) (drop 8 data)) in *.
  assert (Hplen : length p = Z.to_nat (field_length data)).
  { subst p. rewrite length_take, length_drop. lia. }
  destruct (Message_new _ _ _ p) as [m'|] eqn:Hnew; [|discriminate].
  injection Hd as ->.
  unfold Message_new in Hnew.
  destruct (_ || _); [discriminate|]. destruct (_ >? _); [discriminate|].
  injection Hnew as <-. rewrite serialize_eq. f_equal.
  unfold payload_length. cbn [payload msgType ttl msgId].
  rewrite Hplen, Z2Nat.id by lia.
  subst p. unfold field_type, field_ttl, field_id, field_length in *.
  do 8 (destruct data as [|? data]; [simpl in Hge; lia|]).
  cbn [take drop firstn skipn].
  rewrite !be_value_1, be_bytes32_be_value, be_bytes16_be_value,
    !ToUint8_byteval.
  reflexivity.
Qed.

(** Bytes behind a complete message do not change what is decoded. *)
Lemma deserialize_app (data tail : list byte) (m : Message) :
  deserialize data = Normal (Some m) ->
  deserialize (data ++ tail) = Normal (Some m).
Proof.
  intros Hd. rewrite deserialize_eq in *.
  destruct (Nat.ltb_spec (length data) 8) as [|Hge]; [discriminate|].
  destruct (Z.ltb_spec (Z.of_nat (length data)) (8 + field_length data))
    as [|Hfull]; [discriminate|].
  destruct (field_ranges data Hge) as (_ & _ & _ & Rn).
  assert (Ht : ∀ n k, (n + k <= 8)%nat ->
            take n (drop k (data ++ tail)) = take n (drop k data)).
  { intros n k Hnk. rewrite drop_app_le by lia. apply take_app_le.
    rewrite length_drop. lia. }
  assert (Ft : field_type (data ++ tail) = field_type data)
    by (unfold field_type; rewrite <- (drop_0 (data ++ tail)),
          <- (drop_0 data) at 1; f_equal; apply Ht; lia).
  assert (Fl : field_ttl (data ++ tail) = field_ttl data)
    by (unfold field_ttl; f_equal; apply Ht; lia).
  assert (Fi : field_id (data ++ tail) = field_id data)
    by (unfold field_id; f_equal; apply Ht; lia).
  assert (Fn : field_length (data ++ tail) = field_length data)
    by (unfold field_length; f_equal; apply Ht; lia).
  rewrite Ft, Fl, Fi, Fn.
  destruct (Nat.ltb_spec (length (data ++ tail)) 8) as [Hbad|_];
    [rewrite length_app in Hbad; lia|].
  destruct (Z.ltb_spec (Z.of_nat (length (data ++ tail)))
              (8 + field_length data)) as [Hbad|_];
    [rewrite length_app in Hbad; lia|].
  replace (slice (data ++ tail) 8 (8 + Z.to_nat (field_length data)))
    with (slice data 8 (8 + Z.to_nat (field_length data))); [exact Hd|].
  unfold slice. rewrite drop_app_le by lia. symmetry. apply take_app_le.
  rewrite length_drop. lia.
Qed.

(** X1. Decoding inverts encoding on the wire's range, also inside a
    longer buffer: for a message with [ttl] 0..7, payload of at most 65535
    bytes, type 0..255 and id 0..2^32-1, the encoded bytes followed by any
    other bytes decode to the message itself. *)
Theorem decode_inverts_encode (m : Message) (tail : list byte) :
  valid m -> fits_wire m ->
  ∃ bs, serialize m = Normal bs
    /\ deserialize bs = Normal (Some m)
    /\ deserialize (bs ++ tail) = Normal (Some m).
Proof.
  intros Hv Hw. pose proof (roundtrip_fits_wire m Hv Hw) as Hrt.
  destruct (serialize m) as [bs|] eqn:Hs; [|discriminate Hrt].
  exists bs. split; [reflexivity|]. split; [exact Hrt|].
  now apply deserialize_app.
Qed.

Lemma decode_inverts_encode_witness :
  ∃ bs, serialize (mkMessage 5 2 0x12345678 [x54; x65]) = Normal bs
    /\ deserialize bs = Normal (Some (mkMessage 5 2 0x12345678 [x54; x65]))
    /\ deserialize (bs ++ [xff])
       = Normal (Some (mkMessage 5 2 0x12345678 [x54; x65])).
Proof.
  apply (decode_inverts_encode (mkMessage 5 2 0x12345678 [x54; x65]) [xff]).
  - unfold valid, payload_length. simpl. lia.
  - unfold fits_wire. simpl. lia.
Defined.

(** X2. Encoding inverts decoding: a message that [deserialize] returns
    passes the constructor's checks, has its type and id in the wire's
    range, and encodes back to exactly the bytes it was read from, the
    header and the declared payload. *)
Theorem encode_inverts_decode (data : list byte) (m : Message) :
  deserialize data = Normal (Some m) ->
  valid m /\ fits_wire m
  /\ (8 + length (payload m) <= length data)%nat
  /\ serialize m = Normal (take (8 + length (payload m)) data).
Proof.
  intros Hd. destruct (deserialize_valid data m Hd) as [Hv Hw].
  pose proof (serialize_deserialized data m Hd) as Hs.
  split; [exact Hv|]. split; [exact Hw|]. split; [|exact Hs].
  pose proof (serialize_length _ _ Hs) as Hlen.
  rewrite length_take in Hlen. lia.
Qed.

Lemma encode_inverts_decode_witness :
  serialize (mkMessage 1 7 0xAABBCCDD [])
  = Normal (take 8 [x01; x07; xaa; xbb; xcc; xdd; x00; x00; x99]).
Proof.
  apply (encode_inverts_decode
           [x01; x07; xaa; xbb; xcc; xdd; x00; x00; x99]
           (mkMessage 1 7 0xAABBCCDD [])).
  vm_compute. reflexivity.
Defined.

End CodecInverse.

Section MessageIds.

Lemma generateMessageId_eq (now rnd : Z) (content : list Z) :
  generateMessageId now rnd content
  = Z.lor (ToInt32 (Z.land (ToInt32 now) 0xFFFF * 2 ^ 16))
          (Z.lxor (ToInt32 rnd) (ToInt32 (contentHash content))).
Proof. reflexivity. Qed.

Lemma land_low16 (x : Z) : Z.land x 0xFFFF = x mod 2 ^ 16.
Proof. change 0xFFFF with (Z.ones 16). apply Z.land_ones. lia. Qed.

Lemma contentHash_range (content : list Z) : 0 <= contentHash content < 2 ^ 16.
Proof.
  unfold contentHash.
  assert (Hgen : ∀ h, 0 <= h < 2 ^ 16 ->
    0 <= fold_left
           (fun contentHash c =>
              Z.land (ToInt32 (ToInt32 (contentHash * 2 ^ 5) - contentHash + c))
                     0xFFFF) content h < 2 ^ 16).
  { induction content as [|c content IH]; intros h Hh; [exact Hh|].
    simpl. apply IH. rewrite land_low16. apply Z.mod_pos_bound. lia. }
  apply Hgen. lia.
Qed.

Lemma ToInt32_small (x : Z) : - 2 ^ 31 <= x < 2 ^ 31 -> ToInt32 x = x.
Proof.
  intros Hx. unfold ToInt32.
  change (2 ^ 31) with 2147483648 in *. change (2 ^ 32) with 4294967296.
  Z.div_mod_to_equations. lia.
Qed.

Lemma ToInt32_low16 (x : Z) : ToInt32 x mod 2 ^ 16 = x mod 2 ^ 16.
Proof.
  unfold ToInt32.
  change (2 ^ 31) with 2147483648. change (2 ^ 32) with 4294967296.
  change (2 ^ 16) with 65536.
  Z.div_mod_to_equations. lia.
Qed.

Lemma lxor_low16 (a b : Z) :
  0 <= a < 2 ^ 16 -> 0 <= b < 2 ^ 16 -> 0 <= Z.lxor a b < 2 ^ 16.
Proof.
  intros Ha Hb.
  assert (Hnn : 0 <= Z.lxor a b) by (apply Z.lxor_nonneg; lia).
  split; [exact Hnn|].
  destruct (Z.eq_dec (Z.lxor a b) 0) as [->|Hne]; [lia|].
  apply Z.log2_lt_pow2; [lia|].
  eapply Z.le_lt_trans; [apply Z.log2_lxor; lia|].
  apply Z.max_lub_lt.
  - destruct (Z.eq_dec a 0) as [->|]; [simpl; lia|].
    apply Z.log2_lt_pow2; lia.
  - destruct (Z.eq_dec b 0) as [->|]; [simpl; lia|].
    apply Z.log2_lt_pow2; lia.
Qed.

(** A multiple of 2^16 and a value below 2^16 share no bit. *)
Lemma lor_high_low (k b : Z) :
  0 <= b < 2 ^ 16 -> Z.lor (k * 2 ^ 16) b = k * 2 ^ 16 + b.
Proof.
  intros Hb.
  assert (Hdisj : Z.land (k * 2 ^ 16) b = 0).
  { apply Z.bits_inj'. intros n Hn. rewrite Z.land_spec, Z.bits_0.
    destruct (Z.lt_ge_cases n 16) as [Hlo|Hhi].
    - rewrite Z.mul_pow2_bits_low by lia. reflexivity.
    - rewrite <- (Z.mod_small b (2 ^ 16)) by lia.
      rewrite Z.mod_pow2_bits_high by lia. apply andb_false_r. }
  rewrite <- Z.lxor_lor by exact Hdisj.
  symmetry. apply Z.add_nocarry_lxor. exact Hdisj.
Qed.

(** X3. The shape of a generated id, for a random draw in its range: the
    id is a signed 32-bit integer; modulo 2^32 its upper half is the low
    16 bits of the clock and its lower half the random draw XOR the
    content hash (the draw alone when no content is given); and it is
    negative exactly when bit 15 of the clock is set. *)
Theorem generateMessageId_layout (now rnd : Z) (content : list Z) :
  0 <= rnd < 0xFFFF ->
  - 2 ^ 31 <= generateMessageId now rnd content < 2 ^ 31
  /\ generateMessageId now rnd content mod 2 ^ 32
     = (now mod 2 ^ 16) * 2 ^ 16 + Z.lxor rnd (contentHash content)
  /\ 0 <= Z.lxor rnd (contentHash content) < 2 ^ 16
  /\ contentHash [] = 0
  /\ (generateMessageId now rnd content < 0 <-> 2 ^ 15 <= now mod 2 ^ 16).
Proof.
  intros Hrnd. rewrite generateMessageId_eq.
  pose proof (contentHash_range content) as Hh.
  rewrite (ToInt32_small rnd) by lia.
  rewrite (ToInt32_small (contentHash content)) by lia.
  rewrite land_low16, ToInt32_low16.
  pose proof (lxor_low16 rnd (contentHash content)) as Hlow.
  assert (Ht : 0 <= now mod 2 ^ 16 < 2 ^ 16) by (apply Z.mod_pos_bound; lia).
  generalize dependent (Z.lxor rnd (contentHash content)). intros low Hlow.
  generalize dependent (now mod 2 ^ 16). intros t Ht.
  assert (Hlow' : 0 <= low < 2 ^ 16) by (apply Hlow; lia).
  assert (Hhigh : ToInt32 (t * 2 ^ 16)
                  = (t - (if t <? 2 ^ 15 then 0 else 2 ^ 16)) * 2 ^ 16).
  { unfold ToInt32. destruct (Z.ltb_spec t (2 ^ 15));
      change (2 ^ 15) with 32768 in *; change (2 ^ 16) with 65536 in *;
      change (2 ^ 31) with 2147483648; change (2 ^ 32) with 4294967296;
      Z.div_mod_to_equations; lia. }
  rewrite Hhigh, lor_high_low by exact Hlow'.
  change (2 ^ 15) with 32768 in *. change (2 ^ 16) with 65536 in *.
  change (2 ^ 31) with 2147483648. change (2 ^ 32) with 4294967296.
  split; [destruct (Z.ltb_spec t 32768); lia|].
  split; [destruct (Z.ltb_spec t 32768); Z.div_mod_to_equations; lia|].
  split; [exact Hlow'|]. split; [reflexivity|].
  destruct (Z.ltb_spec t 32768); lia.
Qed.

Lemma generateMessageId_layout_witness :
  generateMessageId 1762153237000 12345 [72; 105] < 0
  <-> 2 ^ 15 <= 1762153237000 mod 2 ^ 16.
Proof.
  apply (generateMessageId_layout 1762153237000 12345 [72; 105]).
  simpl. lia.
Defined.

End MessageIds.

Section CacheBound.

Lemma isDuplicate_step (id : Z) (c : IdSet) :
  NoDup c -> Z.of_nat (length c) <= 10000 ->
  Z.of_nat (length (isDuplicate id c).2) <= 10000
  /\ (∀ x, x ∈ (isDuplicate id c).2 -> x ∈ c \/ x = id).
Proof.
  intros Hnd Hlen. destruct (decide (id ∈ c)) as [Hin|Hnew].
  - rewrite isDuplicate_seen by assumption. simpl. auto.
  - rewrite isDuplicate_new by assumption. simpl.
    destruct (Z.gtb_spec (Z.of_nat (length (c ++ [id]))) 10000) as [Hbig|Hok].
    + split.
      * rewrite length_drop, length_app in *. simpl length in *.
        replace (Z.of_nat (length c + 1)) with 10001 by lia.
        change (Z.to_nat (10001 / 2)) with (Z.to_nat 5000). lia.
      * intros x Hx. apply (elem_of_sublist _ (c ++ [id])) in Hx;
          [|apply sublist_drop].
        apply elem_of_app in Hx as [?|Hx]; [auto|].
        apply list_elem_of_singleton in Hx. auto.
    + split; [exact Hok|].
      intros x Hx. apply elem_of_app in Hx as [?|Hx]; [auto|].
      apply list_elem_of_singleton in Hx. auto.
Qed.

(** X4. The cache keeps its shape through any run of duplicate checks: it
    never holds an id twice, never holds more than 10,000 ids once a check
    has returned, and never holds an id it was not started with or asked
    about. *)
Theorem cache_stays_bounded (ids : list Z) (c : IdSet) :
  NoDup c -> Z.of_nat (length c) <= 10000 ->
  NoDup (checks ids c)
  /\ Z.of_nat (length (checks ids c)) <= 10000
  /\ (∀ x, x ∈ checks ids c -> x ∈ c \/ x ∈ ids).
Proof.
  revert c. induction ids as [|id ids IH]; intros c Hnd Hlen.
  - simpl. split; [exact Hnd|]. split; [exact Hlen | auto].
  - rewrite checks_cons.
    destruct (isDuplicate_step id c Hnd Hlen) as [Hlen' Hfrom].
    destruct (IH (isDuplicate id c).2 (isDuplicate_NoDup id c Hnd) Hlen')
      as (Hnd'' & Hlen'' & Hfrom'').
    split; [exact Hnd''|]. split; [exact Hlen''|].
    intros x Hx. destruct (Hfrom'' x Hx) as [Hc|Hi].
    + destruct (Hfrom x Hc) as [?| ->]; [auto | right; left].
    + right. now right.
Qed.

Lemma cache_stays_bounded_witness :
  NoDup (checks [4; 2; 4; 9] [1; 2])
  /\ Z.of_nat (length (checks [4; 2; 4; 9] [1; 2])) <= 10000
  /\ (∀ x, x ∈ checks [4; 2; 4; 9] [1; 2] -> x ∈ [1; 2] \/ x ∈ [4; 2; 4; 9]).
Proof.
  apply (cache_stays_bounded [4; 2; 4; 9] [1; 2]).
  - apply (NoDup_seqZ 1 2).
  - simpl. lia.
Defined.

End CacheBound.

Section Framer.

Lemma be_value_nonneg (bs : list byte) : 0 <= be_value bs.
Proof.
  unfold be_value.
  assert (Hgen : ∀ acc, 0 <= acc ->
            0 <= fold_left (fun acc b => acc * 256 + byteval b) bs acc).
  { induction bs as [|b bs IH]; intros acc Hacc; [exact Hacc|].
    simpl. apply IH. pose proof (byteval_range b). lia. }
  apply Hgen. lia.
Qed.

Lemma be_bytes32_take4 (buf : list byte) :
  (4 <= length buf)%nat -> be_bytes32 (be_value (take 4 buf)) = take 4 buf.
Proof.
  intros Hlen. do 4 (destruct buf as [|? buf]; [simpl in Hlen; lia|]).
  cbn [take firstn]. apply be_bytes32_be_value.
Qed.

Lemma extractFrames_S (fuel : nat) (buf : list byte) :
  extractFrames (S fuel) buf
  = if (4 <=? length buf)%nat then
      if Z.of_nat (length buf) >=? 4 + be_value (take 4 buf) then
        (slice buf 4 (4 + Z.to_nat (be_value (take 4 buf)))
         :: (extractFrames fuel
               (drop (4 + Z.to_nat (be_value (take 4 buf))) buf)).1,
         (extractFrames fuel
            (drop (4 + Z.to_nat (be_value (take 4 buf))) buf)).2)
      else ([], buf)
    else ([], buf).
Proof. reflexivity. Qed.

(** Fuel above the buffer's length is never used up. *)
Lemma extractFrames_fuel (fuel1 fuel2 : nat) (buf : list byte) :
  (length buf < fuel1)%nat -> (length buf < fuel2)%nat ->
  extractFrames fuel1 buf = extractFrames fuel2 buf.
Proof.
  revert fuel2 buf. induction fuel1 as [|fuel1 IH]; intros fuel2 buf H1 H2;
    [lia|].
  destruct fuel2 as [|fuel2]; [lia|]. rewrite !extractFrames_S.
  destruct (Nat.leb_spec 4 (length buf)) as [Hfour|]; [|reflexivity].
  destruct (Z.geb_spec (Z.of_nat (length buf)) (4 + be_value (take 4 buf)))
    as [Hfull|]; [|reflexivity].
  rewrite (IH fuel2); [reflexivity | |]; rewrite length_drop; lia.
Qed.

(** The frames taken and the rest make up the buffer, and the rest does
    not start with a complete frame. *)
Lemma extractFrames_parse (fuel : nat) (buf : list byte) :
  (length buf < fuel)%nat ->
  buf = mjoin (with_prefix <$> (extractFrames fuel buf).1)
        ++ (extractFrames fuel buf).2
  /\ incomplete (extractFrames fuel buf).2.
Proof.
  revert buf. induction fuel as [|fuel IH]; intros buf Hfuel; [lia|].
  rewrite extractFrames_S.
  destruct (Nat.leb_spec 4 (length buf)) as [Hfour|Hshort];
    [|split; [reflexivity | left; exact Hshort]].
  pose proof (be_value_nonneg (take 4 buf)) as Hnn.
  destruct (Z.geb_spec (Z.of_nat (length buf)) (4 + be_value (take 4 buf)))
    as [Hfull|Hpart]; [|split; [reflexivity | right; exact Hpart]].
  destruct (IH (drop (4 + Z.to_nat (be_value (take 4 buf))) buf))
    as [Hrest Hinc]; [rewrite length_drop; lia|].
  split; [|exact Hinc].
  cbn [fst snd]. rewrite fmap_cons.
  change (mjoin (?a :: ?l)) with (a ++ mjoin l).
  rewrite <- app_assoc, <- Hrest.
  unfold with_prefix, slice.
  replace (4 + Z.to_nat (be_value (take 4 buf)) - 4)%nat
    with (Z.to_nat (be_value (take 4 buf))) by lia.
  rewrite length_take, length_drop.
  replace (Z.of_nat (Z.to_nat (be_value (take 4 buf))
                     `min` (length buf - 4)))
    with (be_value (take 4 buf)) by (rewrite Nat.min_l by lia; lia).
  rewrite be_bytes32_take4 by exact Hfour.
  rewrite <- app_assoc, <- drop_drop, !take_drop. reflexivity.
Qed.

(** What a longer buffer yields: the frames of its front part, then the
    frames of what the front part left together with the new bytes. *)
Lemma extractFrames_app (fuel1 fuel2 fuel3 : nat) (x y : list byte) :
  (length x < fuel1)%nat -> (length (x ++ y) < fuel2)%nat ->
  (length ((extractFrames fuel1 x).2 ++ y) < fuel3)%nat ->
  extractFrames fuel2 (x ++ y)
  = ((extractFrames fuel1 x).1
     ++ (extractFrames fuel3 ((extractFrames fuel1 x).2 ++ y)).1,
     (extractFrames fuel3 ((extractFrames fuel1 x).2 ++ y)).2).
Proof.
  revert fuel2 x. induction fuel1 as [|fuel1 IH]; intros fuel2 x H1 H2 H3;
    [lia|].
  assert (Hstop : extractFrames (S fuel1) x = ([], x) ->
    extractFrames fuel2 (x ++ y)
    = ((extractFrames (S fuel1) x).1
       ++ (extractFrames fuel3 ((extractFrames (S fuel1) x).2 ++ y)).1,
       (extractFrames fuel3 ((extractFrames (S fuel1) x).2 ++ y)).2)).
  { intros Hx. rewrite Hx in *. simpl fst in *. simpl snd in *.
    rewrite (extractFrames_fuel fuel2 fuel3) by assumption.
    now destruct (extractFrames fuel3 (x ++ y)). }
  destruct fuel2 as [|fuel2]; [lia|].
  rewrite !extractFrames_S in *.
  destruct (Nat.leb_spec 4 (length x)) as [Hfour|Hshort];
    [|now apply Hstop].
  pose proof (be_value_nonneg (take 4 x)) as Hnn.
  destruct (Z.geb_spec (Z.of_nat (length x)) (4 + be_value (take 4 x)))
    as [Hfull|Hpart]; [|now apply Hstop].
  clear Hstop. cbn [fst snd] in *.
  assert (Htake : take 4 (x ++ y) = take 4 x) by (apply take_app_le; lia).
  rewrite Htake.
  destruct (Nat.leb_spec 4 (length (x ++ y))) as [_|Hbad];
    [|rewrite length_app in Hbad; lia].
  destruct (Z.geb_spec (Z.of_nat (length (x ++ y)))
              (4 + be_value (take 4 x))) as [_|Hbad];
    [|rewrite length_app in Hbad; lia].
  rewrite drop_app_le by lia.
  rewrite (IH fuel2); cycle 1.
  { rewrite length_drop. lia. }
  { rewrite length_app, length_drop in *. lia. }
  { exact H3. }
  cbn [fst snd]. f_equal. rewrite <- app_comm_cons. f_equal.
  unfold slice. rewrite drop_app_le by lia. apply take_app_le.
  rewrite length_drop. lia.
Qed.

End Framer.

Section DataHandlerFacts.
Context `{Platform}.

Lemma deserialize_normal (data : list byte) :
  ∃ r, deserialize data = Normal r.
Proof.
  rewrite deserialize_eq.
  destruct (_ <? _)%nat; [eauto|]. destruct (_ <? _); [eauto|].
  destruct (Message_new _ _ _ _); eauto.
Qed.

Lemma onMessageDecoded_normal (st : P2PNetworkManager) (e : env)
    (m : Message) (peerKey : string) :
  valid m -> ∃ r, onMessageDecoded st e m peerKey = Normal r.
Proof.
  intros Hv. unfold onMessageDecoded.
  destruct (isDuplicate (msgId m) (messageCache st)).1; [eauto|].
  destruct (handleMessage_effects
              (with_cache (isDuplicate (msgId m) (messageCache st)).2 st)
              e m peerKey Hv) as (st1 & tr1 & tr2 & Hrun & _).
  rewrite Hrun. eauto.
Qed.

Lemma processBuffer_S (fuel : nat) (st : P2PNetworkManager)
    (reads : nat -> env) (i : nat) (buf : list byte) (peerKey : string) :
  processBuffer (S fuel) st reads i buf peerKey
  = if (4 <=? length buf)%nat then
      match readUInt32BE buf 0 with
      | Throw _ => (st, [], buf)
      | Normal messageLength =>
          if Z.of_nat (length buf) >=? 4 + messageLength then
            match deserialize (slice buf 4 (4 + Z.to_nat messageLength)) with
            | Throw _ => (st, [], drop (4 + Z.to_nat messageLength) buf)
            | Normal None =>
                processBuffer fuel st reads (S i)
                  (drop (4 + Z.to_nat messageLength) buf) peerKey
            | Normal (Some message) =>
                match onMessageDecoded st (reads i) message peerKey with
                | Throw _ =>
                    (with_cache
                       (isDuplicate (msgId message) (messageCache st)).2 st,
                     [], drop (4 + Z.to_nat messageLength) buf)
                | Normal r =>
                    ((processBuffer fuel r.1 reads (S i)
                        (drop (4 + Z.to_nat messageLength) buf) peerKey).1.1,
                     r.2 ++
                     (processBuffer fuel r.1 reads (S i)
                        (drop (4 + Z.to_nat messageLength) buf) peerKey).1.2,
                     (processBuffer fuel r.1 reads (S i)
                        (drop (4 + Z.to_nat messageLength) buf) peerKey).2)
                end
            end
          else (st, [], buf)
      end
    else (st, [], buf).
Proof. reflexivity. Qed.

Lemma readUInt32BE_front (buf : list byte) :
  (4 <= length buf)%nat ->
  readUInt32BE buf 0 = Normal (be_value (take 4 buf)).
Proof.
  intros Hlen. unfold readUInt32BE, getUint32.
  rewrite read_at_ok by lia. reflexivity.
Qed.

(** The loop handles the complete frames of the buffer in order and
    leaves the rest: nothing thrown ever cuts it short. *)
Lemma processBuffer_frames (fuel : nat) (st : P2PNetworkManager)
    (reads : nat -> env) (i : nat) (buf : list byte) (peerKey : string) :
  (length buf < fuel)%nat ->
  processBuffer fuel st reads i buf peerKey
  = (processFrames st reads i (extractFrames fuel buf).1 peerKey,
     (extractFrames fuel buf).2).
Proof.
  revert st i buf. induction fuel as [|fuel IH]; intros st i buf Hfuel; [lia|].
  rewrite processBuffer_S, extractFrames_S.
  destruct (Nat.leb_spec 4 (length buf)) as [Hfour|]; [|reflexivity].
  rewrite readUInt32BE_front by exact Hfour.
  pose proof (be_value_nonneg (take 4 buf)) as Hnn.
  destruct (Z.geb_spec (Z.of_nat (length buf)) (4 + be_value (take 4 buf)))
    as [Hfull|]; [|reflexivity].
  set (messageData := slice buf 4 (4 + Z.to_nat (be_value (take 4 buf)))).
  set (rest := drop (4 + Z.to_nat (be_value (take 4 buf))) buf).
  assert (Hrest : (length rest < fuel)%nat)
    by (subst rest; rewrite length_drop; lia).
  cbn [fst snd processFrames]. unfold onMessageData.
  destruct (deserialize_normal messageData) as [[m|] Hd]; rewrite Hd.
  - destruct (deserialize_valid _ _ Hd) as [Hv _].
    destruct (onMessageDecoded_normal st (reads i) m peerKey Hv) as [r Hr].
    rewrite Hr, (IH r.1 (S i) rest Hrest). reflexivity.
  - rewrite (IH st (S i) rest Hrest). cbn [fst snd app].
    now destruct (processFrames st reads (S i) (extractFrames fuel rest).1
                    peerKey).
Qed.

Lemma processFrames_app (st : P2PNetworkManager) (reads : nat -> env)
    (i : nat) (fs1 fs2 : list (list byte)) (peerKey : string) :
  processFrames st reads i (fs1 ++ fs2) peerKey
  = ((processFrames (processFrames st reads i fs1 peerKey).1 reads
        (i + length fs1) fs2 peerKey).1,
     (processFrames st reads i fs1 peerKey).2
     ++ (processFrames (processFrames st reads i fs1 peerKey).1 reads
           (i + length fs1) fs2 peerKey).2).
Proof.
  revert st i. induction fs1 as [|f fs1 IH]; intros st i.
  - cbn [app processFrames fst snd length]. rewrite Nat.add_0_r.
    now destruct (processFrames st reads i fs2 peerKey).
  - cbn [app processFrames fst snd length]. rewrite IH.
    cbn [fst snd]. rewrite app_assoc.
    replace (S i + length fs1)%nat with (i + S (length fs1))%nat by lia.
    reflexivity.
Qed.

(** Only the values read for the frames at hand matter. *)
Lemma processFrames_reads (st : P2PNetworkManager) (reads1 reads2 : nat -> env)
    (i j : nat) (fs : list (list byte)) (peerKey : string) :
  (∀ k, (k < length fs)%nat -> reads1 (i + k)%nat = reads2 (j + k)%nat) ->
  processFrames st reads1 i fs peerKey = processFrames st reads2 j fs peerKey.
Proof.
  revert st i j. induction fs as [|f fs IH]; intros st i j Hsame;
    [reflexivity|].
  cbn [processFrames].
  assert (H0 : reads1 i = reads2 j).
  { specialize (Hsame 0%nat). rewrite !Nat.add_0_r in Hsame.
    apply Hsame. simpl. lia. }
  rewrite H0, (IH _ (S i) (S j)); [reflexivity|].
  intros k Hk. specialize (Hsame (S k)).
  replace (S i + k)%nat with (i + S k)%nat by lia.
  replace (S j + k)%nat with (j + S k)%nat by lia.
  apply Hsame. simpl. lia.
Qed.

(** X5. The [data] handler loses and invents no byte: what was buffered
    and what arrived is, in order, the complete frames it handled (each
    with its four-byte length in front) followed by what it keeps
    buffered, and what it keeps does not start with a complete frame. *)
Theorem onData_parses (st : P2PNetworkManager) (reads : nat -> env)
    (messageBuffer data : list byte) (peerKey : string) :
  ∃ frames,
    messageBuffer ++ data
    = mjoin (with_prefix <$> frames)
      ++ (onData st reads messageBuffer data peerKey).2
    /\ incomplete (onData st reads messageBuffer data peerKey).2
    /\ (onData st reads messageBuffer data peerKey).1
       = processFrames st reads 0 frames peerKey.
Proof.
  unfold onData.
  rewrite processBuffer_frames by lia.
  destruct (extractFrames_parse (S (length (messageBuffer ++ data)))
              (messageBuffer ++ data)) as [Hparse Hinc]; [lia|].
  eexists. split; [exact Hparse|]. split; [exact Hinc | reflexivity].
Qed.

(** X6. Chunking does not matter: two [data] events with the bytes [a]
    and then [b] leave the node, the trace and the buffer that one event
    with [a ++ b] leaves, the clock and random values being those read
    for the frames of the first event and then those of the second. *)
Theorem onData_chunks (st : P2PNetworkManager) (reads1 reads2 : nat -> env)
    (messageBuffer a b : list byte) (peerKey : string) :
  let r1 := onData st reads1 messageBuffer a peerKey in
  let r2 := onData r1.1.1 reads2 r1.2 b peerKey in
  let n1 :=
    length (extractFrames (S (length (messageBuffer ++ a)))
              (messageBuffer ++ a)).1 in
  onData st (λ i, if decide (i < n1)%nat then reads1 i
                  else reads2 (i - n1)%nat)
    messageBuffer (a ++ b) peerKey
  = (r2.1.1, r1.1.2 ++ r2.1.2, r2.2).
Proof.
  cbv zeta. unfold onData.
  rewrite !processBuffer_frames by lia. cbn [fst snd].
  set (x := messageBuffer ++ a).
  rewrite (app_assoc messageBuffer a b). fold x.
  rewrite (extractFrames_app (S (length x)) (S (length (x ++ b)))
             (S (length ((extractFrames (S (length x)) x).2 ++ b))))
    by lia.
  cbn [fst snd]. rewrite processFrames_app. cbn [fst snd].
  set (fs1 := (extractFrames (S (length x)) x).1).
  set (fs2 := (extractFrames _ (_ ++ b)).1).
  rewrite (processFrames_reads st _ reads1 0 0 fs1); cycle 1.
  { intros k Hk. cbn [Nat.add]. destruct (decide (k < length fs1)%nat);
      [reflexivity | lia]. }
  rewrite (processFrames_reads _ _ reads2 (0 + length fs1) 0 fs2); cycle 1.
  { intros k Hk. cbn [Nat.add].
    destruct (decide (length fs1 + k < length fs1)%nat); [lia|].
    f_equal. lia. }
  reflexivity.
Qed.

End DataHandlerFacts.

Section Delivery.
Context `{Platform}.

Lemma be_value_length_prefix (n : Z) :
  0 <= n < 2 ^ 32 -> be_value (be_bytes32 n) = n.
Proof.
  intros Hn. rewrite be_value_bytes32. apply Z.mod_small. exact Hn.
Qed.

Lemma length_with_prefix (f : list byte) :
  length (with_prefix f) = (4 + length f)%nat.
Proof. unfold with_prefix. rewrite length_app. reflexivity. Qed.

Lemma take4_with_prefix (f rest : list byte) :
  take 4 (with_prefix f ++ rest) = be_bytes32 (Z.of_nat (length f)).
Proof. reflexivity. Qed.

(** A buffer that starts with a whole frame yields it first. *)
Lemma extractFrames_with_prefix (fuel : nat) (f rest : list byte) :
  Z.of_nat (length f) < 2 ^ 32 ->
  extractFrames (S fuel) (with_prefix f ++ rest)
  = (f :: (extractFrames fuel rest).1, (extractFrames fuel rest).2).
Proof.
  intros Hf. rewrite extractFrames_S, take4_with_prefix.
  rewrite be_value_length_prefix by lia.
  rewrite length_app, length_with_prefix.
  destruct (Nat.leb_spec 4 (4 + length f + length rest)) as [_|]; [|lia].
  destruct (Z.geb_spec (Z.of_nat (4 + length f + length rest))
              (4 + Z.of_nat (length f))) as [_|]; [|lia].
  rewrite Nat2Z.id.
  assert (Hdrop : drop (4 + length f) (with_prefix f ++ rest) = rest).
  { apply drop_app_length'. now rewrite length_with_prefix. }
  assert (Hslice : slice (with_prefix f ++ rest) 4 (4 + length f) = f).
  { unfold slice, with_prefix. rewrite <- app_assoc.
    rewrite (drop_app_length' (be_bytes32 _)) by reflexivity.
    replace (4 + length f - 4)%nat with (length f) by lia.
    apply take_app_length. }
  rewrite Hdrop, Hslice. reflexivity.
Qed.

(** A proper front part of a frame yields nothing. *)
Lemma extractFrames_partial (fuel : nat) (f a b : list byte) :
  Z.of_nat (length f) < 2 ^ 32 ->
  with_prefix f = a ++ b -> b ≠ [] ->
  extractFrames fuel a = ([], a).
Proof.
  intros Hf Hsplit Hb. destruct fuel as [|fuel]; [reflexivity|].
  rewrite extractFrames_S.
  destruct (Nat.leb_spec 4 (length a)) as [Hfour|]; [|reflexivity].
  assert (Htake : take 4 a = be_bytes32 (Z.of_nat (length f))).
  { rewrite <- (take_app_le a b) by lia. rewrite <- Hsplit. reflexivity. }
  rewrite Htake, be_value_length_prefix by lia.
  assert (Hlen : (length a + length b = 4 + length f)%nat)
    by (rewrite <- length_app, <- Hsplit; apply length_with_prefix).
  assert (0 < length b)%nat by (destruct b; [congruence | simpl; lia]).
  destruct (Z.geb_spec (Z.of_nat (length a)) (4 + Z.of_nat (length f)));
    [lia | reflexivity].
Qed.

Lemma frame_with_prefix (m : Message) :
  valid m ->
  ∃ bs, serialize m = Normal bs
    /\ frame m = Normal (with_prefix bs)
    /\ Z.of_nat (length bs) < 2 ^ 32.
Proof.
  intros [_ Hp]. pose proof (frame_eq m Hp) as Hframe.
  pose proof (serialize_eq m) as Hs.
  eexists. split; [exact Hs|]. split; [exact Hframe|].
  unfold payload_length in Hp. cbn [length]. rewrite !length_app.
  cbn [length be_bytes32 be_bytes16]. lia.
Qed.

(** X7. A frame delivered in two pieces is handled once, when its last
    byte arrives: the first piece only fills the buffer, with no change
    to the node and no event; the second piece has the message handled
    exactly as the whole frame in one piece would, and leaves the buffer
    empty. *)
Theorem split_frame_delivery (st : P2PNetworkManager)
    (reads1 reads2 : nat -> env) (m : Message) (a b : list byte)
    (peerKey : string) :
  valid m -> fits_wire m ->
  frame m = Normal (a ++ b) -> b ≠ [] ->
  onData st reads1 [] a peerKey = (st, [], a)
  /\ ∃ r, onMessageDecoded st (reads2 0%nat) m peerKey = Normal r
       /\ onData st reads2 a b peerKey = (r, [])
       /\ onData st reads2 [] (a ++ b) peerKey = (r, []).
Proof.
  intros Hv Hw Hframe Hb.
  destruct (frame_with_prefix m Hv) as (bs & Hs & Hframe' & Hlen).
  rewrite Hframe in Hframe'. injection Hframe' as Hsplit.
  split.
  { unfold onData. rewrite app_nil_l, processBuffer_frames by lia.
    rewrite (extractFrames_partial _ bs a b) by (try lia; auto).
    reflexivity. }
  destruct (onMessageDecoded_normal st (reads2 0%nat) m peerKey Hv)
    as [r Hr].
  exists r. split; [exact Hr|].
  assert (Hd : deserialize bs = Normal (Some m)).
  { pose proof (roundtrip_fits_wire m Hv Hw) as Hrt.
    rewrite Hs in Hrt. exact Hrt. }
  assert (Hwhole : ∀ buf data, buf ++ data = a ++ b ->
    onData st reads2 buf data peerKey = (r, [])).
  { intros buf data Hcat. unfold onData.
    rewrite Hcat, Hsplit, <- (app_nil_r (with_prefix bs)).
    rewrite processBuffer_frames by lia.
    rewrite extractFrames_with_prefix by lia.
    assert (Hnil : extractFrames (length (with_prefix bs ++ [])) []
                   = ([], @nil byte))
      by (destruct (length (with_prefix bs ++ [])); reflexivity).
    rewrite Hnil. cbn [fst snd processFrames].
    unfold onMessageData. rewrite Hd, Hr, app_nil_r.
    now destruct r. }
  split; apply Hwhole; reflexivity.
Qed.

End Delivery.

Section Isolation.
Context `{Platform}.

(** X8. A frame that does not decode is skipped and nothing else: the
    node and the trace are what they would be had the frame never been
    sent, and the frames behind it are handled as usual. *)
Theorem malformed_frame_skipped (st : P2PNetworkManager) (reads : nat -> env)
    (f rest : list byte) (peerKey : string) :
  deserialize f = Normal None ->
  Z.of_nat (length f) < 2 ^ 32 ->
  onData st reads [] (with_prefix f ++ rest) peerKey
  = onData st (λ i, reads (S i)) [] rest peerKey.
Proof.
  intros Hbad Hlen. unfold onData. rewrite !app_nil_l.
  rewrite !processBuffer_frames by lia.
  rewrite extractFrames_with_prefix by exact Hlen.
  rewrite (extractFrames_fuel (length (with_prefix f ++ rest))
             (S (length rest)))
    by (rewrite ?length_app, ?length_with_prefix; lia).
  assert (Hskip : onMessageData st (reads 0%nat) f peerKey = (st, []))
    by (unfold onMessageData; now rewrite Hbad).
  cbn [fst snd processFrames]. rewrite Hskip. cbn [fst snd app].
  rewrite (processFrames_reads st reads (λ i, reads (S i)) 1 0);
    [|intros k _; reflexivity].
  now destruct (processFrames st _ 0 _ peerKey).
Qed.

Lemma handler_trace_inert (st st1 : P2PNetworkManager) (e : env)
    (m : Message) (from : string) (tr1 : list event) :
  match messageHandlers (msgType m) with
  | Some handler => handler st e m from
  | None => Normal (st, [])
  end = Normal (st1, tr1) ->
  Forall inert tr1
  /\ server st1 = server st /\ isRunning st1 = isRunning st
  /\ messageCache st1 = messageCache st.
Proof.
  unfold messageHandlers.
  destruct (decide (msgType m = MessageType.PING)).
  { unfold handlePing. rewrite pong_new.
    change (Normal ?a ≫= ?k) with (k a). cbv beta. unfold sendToPeer.
    rewrite frame_eq by (unfold payload_length; simpl; lia).
    destruct (connections st !! from); intros [= <- <-];
      repeat split; repeat constructor. }
  destruct (decide (msgType m = MessageType.PONG)).
  { unfold handlePong. intros [= <- <-]. repeat split; constructor. }
  destruct (decide (msgType m = MessageType.PEER_DISCOVERY)).
  { unfold handlePeerDiscovery. intros [= <- <-].
    repeat split; constructor. }
  destruct (decide (msgType m = MessageType.PEER_ANNOUNCEMENT)).
  { unfold handlePeerAnnouncement.
    destruct (peers st !! from); [destruct (decodeNickname (payload m))|];
      intros [= <- <-]; repeat split; constructor. }
  destruct (decide (msgType m = MessageType.CHAT_MESSAGE)).
  { unfold handleChatMessage. intros [= <- <-].
    repeat split; repeat constructor. }
  intros [= <- <-]. repeat split; constructor.
Qed.

Lemma forwardMessage_inert (st : P2PNetworkManager) (m : Message)
    (exclude : option string) (evs : list event) :
  forwardMessage st m exclude = Normal evs -> Forall inert evs.
Proof.
  unfold forwardMessage. destruct (frame m) as [d|]; [|discriminate].
  intros [= <-]. apply Forall_fmap, Forall_forall. intros kv _. exact I.
Qed.

(** What handling one frame can do. *)
Lemma onMessageData_isolated (st : P2PNetworkManager) (e : env)
    (messageData : list byte) (peerKey : string) :
  connections (onMessageData st e messageData peerKey).1 = connections st
  /\ dom (peers (onMessageData st e messageData peerKey).1) = dom (peers st)
  /\ server (onMessageData st e messageData peerKey).1 = server st
  /\ isRunning (onMessageData st e messageData peerKey).1 = isRunning st
  /\ Forall inert (onMessageData st e messageData peerKey).2.
Proof.
  unfold onMessageData.
  destruct (deserialize messageData) as [[m|]|] eqn:Hd;
    try (repeat split; constructor).
  apply deserialize_valid in Hd as [Hv _].
  unfold onMessageDecoded.
  destruct (isDuplicate (msgId m) (messageCache st)) as [[|] cache'];
    cbn [fst snd]; [repeat split; constructor|].
  destruct (handleMessage_effects (with_cache cache' st) e m peerKey Hv)
    as (st1 & tr1 & tr2 & Hrun & Hh & Hconn & Hdom & _).
  destruct (handler_trace_inert _ _ _ _ _ _ Hh) as (Htr1 & Hsrv & Hrun' & _).
  rewrite Hrun. cbn [fst snd].
  split; [exact Hconn|]. split; [exact Hdom|].
  split; [exact Hsrv|]. split; [exact Hrun'|].
  apply Forall_app. split; [exact Htr1|].
  unfold handleMessage in Hrun. rewrite Hh in Hrun.
  change (Normal ?a ≫= ?k) with (k a) in Hrun. cbv beta in Hrun.
  cbn [fst snd] in Hrun.
  destruct (ttl m >? 0).
  - destruct (forwardMessage st1 _ (Some peerKey)) as [evs|] eqn:Hfw;
      [|discriminate].
    injection Hrun as Hrun. apply app_inv_head in Hrun. subst tr2.
    eapply forwardMessage_inert. exact Hfw.
  - injection Hrun as Hrun.
    rewrite <- (app_nil_r tr1) in Hrun at 1.
    apply app_inv_head in Hrun. subst tr2. constructor.
Qed.

Lemma processFrames_isolated (st : P2PNetworkManager) (reads : nat -> env)
    (i : nat) (frames : list (list byte)) (peerKey : string) :
  connections (processFrames st reads i frames peerKey).1 = connections st
  /\ dom (peers (processFrames st reads i frames peerKey).1) = dom (peers st)
  /\ server (processFrames st reads i frames peerKey).1 = server st
  /\ isRunning (processFrames st reads i frames peerKey).1 = isRunning st
  /\ Forall inert (processFrames st reads i frames peerKey).2.
Proof.
  revert st i. induction frames as [|f frames IH]; intros st i.
  - repeat split; constructor.
  - cbn [processFrames fst snd].
    destruct (onMessageData_isolated st (reads i) f peerKey)
      as (Hc & Hd & Hs & Hr & Ht).
    destruct (IH (onMessageData st (reads i) f peerKey).1 (S i))
      as (Hc' & Hd' & Hs' & Hr' & Ht').
    rewrite Hc', Hd', Hs', Hr'.
    repeat split; try assumption. apply Forall_app. now split.
Qed.

(** X9. Whatever bytes a connection delivers, handling them opens and
    closes nothing: the connection table is untouched, the peer registry
    keeps its keys, the server and the running flag stay as they are, and
    the only events are socket writes and messages handed to the
    application. *)
Theorem onData_isolated (st : P2PNetworkManager) (reads : nat -> env)
    (messageBuffer data : list byte) (peerKey : string) :
  connections (onData st reads messageBuffer data peerKey).1.1
  = connections st
  /\ dom (peers (onData st reads messageBuffer data peerKey).1.1)
     = dom (peers st)
  /\ server (onData st reads messageBuffer data peerKey).1.1 = server st
  /\ isRunning (onData st reads messageBuffer data peerKey).1.1
     = isRunning st
  /\ Forall inert (onData st reads messageBuffer data peerKey).1.2.
Proof.
  unfold onData. rewrite processBuffer_frames by lia. cbn [fst snd].
  apply processFrames_isolated.
Qed.

End Isolation.

Section Lifecycle.
Context `{Platform}.

(** X10. A peer's disconnect removes its key from both tables and leaves
    every other key alone; the application is told once, and only if the
    peer was registered: a second disconnect of the same key, as when a
    socket reports an error and then closes, changes nothing and tells
    nobody. *)
Theorem disconnect_once (st : P2PNetworkManager) (peerKey : string) :
  connections (handlePeerDisconnect st peerKey).1 !! peerKey = None
  /\ peers (handlePeerDisconnect st peerKey).1 !! peerKey = None
  /\ (∀ k, k ≠ peerKey ->
        connections (handlePeerDisconnect st peerKey).1 !! k
        = connections st !! k
        /\ peers (handlePeerDisconnect st peerKey).1 !! k = peers st !! k)
  /\ (handlePeerDisconnect st peerKey).2
     = match peers st !! peerKey with
       | Some peer => [OnPeerLeft peer]
       | None => []
       end
  /\ handlePeerDisconnect (handlePeerDisconnect st peerKey).1 peerKey
     = ((handlePeerDisconnect st peerKey).1, []).
Proof.
  unfold handlePeerDisconnect. cbn [fst snd].
  split; [apply lookup_delete_eq|]. split; [apply lookup_delete_eq|].
  split.
  { intros k Hk. cbn. rewrite !lookup_delete_ne by congruence. tauto. }
  split; [reflexivity|].
  cbn. rewrite lookup_delete_eq, !delete_delete_eq. reflexivity.
Qed.

Lemma omap_ext_in {A B : Type} (f g : A -> option B) (l : list A) :
  (∀ x, x ∈ l -> f x = g x) -> omap f l = omap g l.
Proof.
  induction l as [|x l IH]; intros Hext; [reflexivity|].
  cbn. rewrite (Hext x) by left.
  rewrite IH; [reflexivity|]. intros y Hy. apply Hext. now right.
Qed.

(** The sweep's loop over a list of distinct keys. *)
Lemma sweep_fold (keys : list string) (st : P2PNetworkManager)
    (tr : list event) :
  NoDup keys ->
  let res :=
    foldl (λ (acc : P2PNetworkManager * list event) peerKey,
             ((handlePeerDisconnect acc.1 peerKey).1,
              acc.2 ++ (handlePeerDisconnect acc.1 peerKey).2))
          (st, tr) keys in
  (∀ k, peers res.1 !! k
        = if decide (k ∈ keys) then None else peers st !! k)
  /\ (∀ k, connections res.1 !! k
           = if decide (k ∈ keys) then None else connections st !! k)
  /\ res.2 = tr ++ omap (λ k, OnPeerLeft <$> peers st !! k) keys.
Proof.
  revert st tr. induction keys as [|k0 keys IH]; intros st tr Hnd; cbv zeta.
  - cbn. split; [|split].
    + intros k. destruct (decide (k ∈ [])) as [Hin|]; [inversion Hin|].
      reflexivity.
    + intros k. destruct (decide (k ∈ [])) as [Hin|]; [inversion Hin|].
      reflexivity.
    + now rewrite app_nil_r.
  - apply NoDup_cons in Hnd as [Hk0 Hnd].
    cbn [foldl fst snd].
    destruct (IH (handlePeerDisconnect st k0).1
                (tr ++ (handlePeerDisconnect st k0).2) Hnd)
      as (Hp & Hc & Ht).
    assert (Hcase : ∀ (A : Type) (m : gmap string A) (k : string),
      (if decide (k ∈ keys) then None else delete k0 m !! k)
      = if decide (k ∈ k0 :: keys) then None else m !! k).
    { intros A m k. destruct (decide (k ∈ keys)) as [Hin|Hout].
      - destruct (decide (k ∈ k0 :: keys)) as [_|Hno]; [reflexivity|].
        exfalso. apply Hno. now right.
      - destruct (decide (k = k0)) as [->|Hne].
        + rewrite lookup_delete_eq.
          destruct (decide (k0 ∈ k0 :: keys)) as [_|Hno]; [reflexivity|].
          exfalso. apply Hno. left.
        + rewrite lookup_delete_ne by congruence.
          destruct (decide (k ∈ k0 :: keys)) as [Hin|_]; [|reflexivity].
          apply elem_of_cons in Hin as [?|?]; contradiction. }
    split; [|split].
    + intros k. rewrite Hp. apply Hcase.
    + intros k. rewrite Hc. apply Hcase.
    + rewrite Ht, <- app_assoc. f_equal.
      rewrite (omap_ext_in
                 (λ k, OnPeerLeft <$> peers (handlePeerDisconnect st k0).1 !! k)
                 (λ k, OnPeerLeft <$> peers st !! k)); cycle 1.
      { intros k Hk. unfold handlePeerDisconnect. cbn.
        rewrite lookup_delete_ne; [reflexivity|]. intros ->. contradiction. }
      unfold handlePeerDisconnect at 1. cbn.
      destruct (peers st !! k0); reflexivity.
Qed.

Lemma cleanup_eq (st : P2PNetworkManager) (now : Z) :
  isRunning st = true ->
  cleanup st now
  = foldl (λ (acc : P2PNetworkManager * list event) peerKey,
             ((handlePeerDisconnect acc.1 peerKey).1,
              acc.2 ++ (handlePeerDisconnect acc.1 peerKey).2))
          (st, [])
          (map_to_list
             (filter (λ kv : string * PeerInfo,
                        now - lastSeen kv.2 > 5 * 60 * 1000) (peers st))).*1.
Proof. intros Hrun. unfold cleanup. rewrite Hrun. reflexivity. Qed.

Lemma stale_keys (st : P2PNetworkManager) (now : Z) (k : string) :
  k ∈ (map_to_list
         (filter (λ kv : string * PeerInfo,
                    now - lastSeen kv.2 > 5 * 60 * 1000) (peers st))).*1
  <-> ∃ peer, peers st !! k = Some peer
              /\ now - lastSeen peer > 5 * 60 * 1000.
Proof.
  rewrite list_elem_of_fmap. split.
  - intros ([k' p] & -> & Hin). apply elem_of_map_to_list in Hin.
    apply map_lookup_filter_Some in Hin. eauto.
  - intros (p & Hp & Hs). exists (k, p). split; [reflexivity|].
    apply elem_of_map_to_list, map_lookup_filter_Some. auto.
Qed.

Lemma sweep_lookup (st : P2PNetworkManager) (now : Z) :
  isRunning st = true ->
  (∀ k, peers (cleanup st now).1 !! k
        = match peers st !! k with
          | Some peer =>
              if decide (now - lastSeen peer > 5 * 60 * 1000) then None
              else Some peer
          | None => None
          end)
  /\ (∀ k, connections (cleanup st now).1 !! k
           = match peers st !! k with
             | Some peer =>
                 if decide (now - lastSeen peer > 5 * 60 * 1000) then None
                 else connections st !! k
             | None => connections st !! k
             end).
Proof.
  intros Hrun. rewrite cleanup_eq by exact Hrun.
  destruct (sweep_fold _ st []
              (NoDup_fst_map_to_list
                 (filter (λ kv : string * PeerInfo,
                            now - lastSeen kv.2 > 5 * 60 * 1000) (peers st))))
    as (Hp & Hc & _).
  assert (Hcase : ∀ (A : Type) (x : option A) (k : string),
    (if decide (k ∈ (map_to_list
                       (filter (λ kv : string * PeerInfo,
                                  now - lastSeen kv.2 > 5 * 60 * 1000)
                               (peers st))).*1)
     then None else x)
    = match peers st !! k with
      | Some peer =>
          if decide (now - lastSeen peer > 5 * 60 * 1000) then None else x
      | None => x
      end).
  { intros A x k. destruct (decide (k ∈ _)) as [Hin|Hout].
    - apply stale_keys in Hin as (p & -> & Hs).
      destruct (decide _); [reflexivity | contradiction].
    - destruct (peers st !! k) as [p|] eqn:Hk; [|reflexivity].
      destruct (decide _) as [Hs|]; [|reflexivity].
      exfalso. apply Hout, stale_keys. eauto. }
  split.
  - intros k. rewrite Hp, Hcase. now destruct (peers st !! k).
  - intros k. rewrite Hc. apply Hcase.
Qed.

(** X11. One run of the stale sweep on a running node removes from the
    registry exactly the peers last seen more than five minutes before,
    removes the connection entries under their keys and no other, and
    tells the application once per removed peer; it calls nothing on the
    sockets it forgets. *)
Theorem stale_sweep (st : P2PNetworkManager) (now : Z) :
  isRunning st = true ->
  (∀ k, peers (cleanup st now).1 !! k
        = match peers st !! k with
          | Some peer =>
              if decide (now - lastSeen peer > 5 * 60 * 1000) then None
              else Some peer
          | None => None
          end)
  /\ (∀ k, connections (cleanup st now).1 !! k
           = match peers st !! k with
             | Some peer =>
                 if decide (now - lastSeen peer > 5 * 60 * 1000) then None
                 else connections st !! k
             | None => connections st !! k
             end)
  /\ (cleanup st now).2
     = (λ kv : string * PeerInfo, OnPeerLeft kv.2)
         <$> map_to_list
               (filter (λ kv : string * PeerInfo,
                          now - lastSeen kv.2 > 5 * 60 * 1000) (peers st)).
Proof.
  intros Hrun. destruct (sweep_lookup st now Hrun) as [Hp Hc].
  split; [exact Hp|]. split; [exact Hc|].
  rewrite cleanup_eq by exact Hrun.
  destruct (sweep_fold _ st []
              (NoDup_fst_map_to_list
                 (filter (λ kv : string * PeerInfo,
                            now - lastSeen kv.2 > 5 * 60 * 1000) (peers st))))
    as (_ & _ & Ht).
  rewrite Ht. cbn [app].
  assert (Hlist : ∀ l : list (string * PeerInfo),
    (∀ kv, kv ∈ l -> peers st !! kv.1 = Some kv.2) ->
    omap (λ k, OnPeerLeft <$> peers st !! k) l.*1
    = (λ kv : string * PeerInfo, OnPeerLeft kv.2) <$> l).
  { induction l as [|kv l IH]; intros Hall; [reflexivity|].
    cbn. rewrite (Hall kv) by left. cbn. f_equal.
    apply IH. intros kv' Hkv'. apply Hall. now right. }
  apply Hlist. intros [k p] Hin. apply elem_of_map_to_list in Hin.
  apply map_lookup_filter_Some in Hin. tauto.
Qed.

Lemma handler_registry (st st1 : P2PNetworkManager) (e : env)
    (m : Message) (from : string) (tr1 : list event) :
  msgType m ≠ MessageType.PONG ->
  msgType m ≠ MessageType.PEER_ANNOUNCEMENT ->
  match messageHandlers (msgType m) with
  | Some handler => handler st e m from
  | None => Normal (st, [])
  end = Normal (st1, tr1) ->
  peers st1 = peers st.
Proof.
  intros Hpong Hann. unfold messageHandlers.
  destruct (decide (msgType m = MessageType.PING)).
  { unfold handlePing. rewrite pong_new.
    change (Normal ?a ≫= ?k) with (k a). cbv beta. unfold sendToPeer.
    rewrite frame_eq by (unfold payload_length; simpl; lia).
    destruct (connections st !! from); intros [= <- _]; reflexivity. }
  destruct (decide (msgType m = MessageType.PONG)); [contradiction|].
  destruct (decide (msgType m = MessageType.PEER_DISCOVERY)).
  { unfold handlePeerDiscovery. intros [= <- _]. reflexivity. }
  destruct (decide (msgType m = MessageType.PEER_ANNOUNCEMENT));
    [contradiction|].
  destruct (decide (msgType m = MessageType.CHAT_MESSAGE)).
  { unfold handleChatMessage. intros [= <- _]. reflexivity. }
  intros [= <- _]. reflexivity.
Qed.

(** [handleMessage] returns the node its handler returned. *)
Lemma handleMessage_handler (st st1 : P2PNetworkManager) (e : env)
    (m : Message) (from : string) (tr : list event) :
  handleMessage st e m from = Normal (st1, tr) ->
  ∃ tr1,
    match messageHandlers (msgType m) with
    | Some handler => handler st e m from
    | None => Normal (st, [])
    end = Normal (st1, tr1).
Proof.
  unfold handleMessage.
  destruct (match messageHandlers (msgType m) with
            | Some handler => handler st e m from
            | None => Normal (st, [])
            end) as [[st0 tr0]|]; [|discriminate].
  change (Normal ?a ≫= ?k) with (k a). cbv beta. cbn [fst snd].
  destruct (ttl m >? 0).
  - destruct (forwardMessage st0 _ _); [|discriminate].
    intros [= <- _]. eauto.
  - intros [= <- _]. eauto.
Qed.


(** X12. Traffic other than PONG and PEER_ANNOUNCEMENT does not count as
    a sign of life: handling such a message, a chat message say, leaves
    the whole registry as it is, last-seen times included, so a peer last
    seen more than five minutes before is removed by the next sweep
    although its message has just been handled. *)
Theorem chat_does_not_refresh (st st1 : P2PNetworkManager) (e : env)
    (m : Message) (from : string) (tr : list event) (peer : PeerInfo)
    (now : Z) :
  msgType m ≠ MessageType.PONG ->
  msgType m ≠ MessageType.PEER_ANNOUNCEMENT ->
  onMessageDecoded st e m from = Normal (st1, tr) ->
  peers st !! from = Some peer ->
  now - lastSeen peer > 5 * 60 * 1000 ->
  isRunning st = true ->
  peers st1 = peers st
  /\ peers (cleanup st1 now).1 !! from = None
  /\ connections (cleanup st1 now).1 !! from = None
  /\ OnPeerLeft peer ∈ (cleanup st1 now).2.
Proof.
  intros Hpong Hann Hrun Hpeer Hstale Hrunning.
  assert (Hsame : peers st1 = peers st /\ isRunning st1 = true).
  { unfold onMessageDecoded in Hrun.
    destruct (isDuplicate (msgId m) (messageCache st)) as [[|] cache'];
      cbn [fst snd] in Hrun.
    - injection Hrun as <- _. auto.
    - destruct (handleMessage_handler _ _ _ _ _ _ Hrun) as [tr1 Hh].
      split.
      + apply (handler_registry _ _ _ _ _ _ Hpong Hann Hh).
      + destruct (handler_trace_inert _ _ _ _ _ _ Hh) as (_ & _ & Hr & _).
        rewrite Hr. exact Hrunning. }
  destruct Hsame as [Hsame Hrunning1].
  split; [exact Hsame|].
  destruct (sweep_lookup st1 now Hrunning1) as [Hp Hc].
  split; [|split].
  - rewrite Hp, Hsame, Hpeer. destruct (decide _); [reflexivity|contradiction].
  - rewrite Hc, Hsame, Hpeer. destruct (decide _); [reflexivity|contradiction].
  - rewrite cleanup_eq by exact Hrunning1.
    destruct (sweep_fold _ st1 []
                (NoDup_fst_map_to_list
                   (filter (λ kv : string * PeerInfo,
                              now - lastSeen kv.2 > 5 * 60 * 1000)
                           (peers st1)))) as (_ & _ & Ht).
    rewrite Ht. cbn [app]. apply list_elem_of_omap.
    exists from. split.
    + apply stale_keys. rewrite Hsame. eauto.
    + rewrite Hsame, Hpeer. reflexivity.
Qed.

(** X13. A PONG is a sign of life: handling a new PONG from a registered
    peer sets that peer's last-seen time to the clock and nothing else in
    its record, and a sweep within the next five minutes keeps the peer
    and its connection entry. *)
Theorem pong_refreshes (st st1 : P2PNetworkManager) (e : env) (m : Message)
    (from : string) (tr : list event) (peer : PeerInfo) (now : Z) :
  msgType m = MessageType.PONG ->
  (isDuplicate (msgId m) (messageCache st)).1 = false ->
  onMessageDecoded st e m from = Normal (st1, tr) ->
  peers st !! from = Some peer ->
  now - env_now e <= 5 * 60 * 1000 ->
  isRunning st = true ->
  peers st1 !! from
  = Some (mkPeerInfo (address peer) (port peer) (nickname peer) (env_now e)
            (hopCount peer))
  /\ peers (cleanup st1 now).1 !! from = peers st1 !! from
  /\ connections (cleanup st1 now).1 !! from = connections st !! from.
Proof.
  intros Hty Hnew Hrun Hpeer Hfresh Hrunning.
  unfold onMessageDecoded in Hrun. rewrite Hnew in Hrun.
  set (st0 := with_cache _ st) in Hrun.
  destruct (handleMessage_handler _ _ _ _ _ _ Hrun) as [tr1 Hh].
  unfold messageHandlers in Hh. rewrite Hty in Hh.
  destruct (decide (MessageType.PONG = MessageType.PING)) as [Hbad|_];
    [discriminate Hbad|].
  destruct (decide (MessageType.PONG = MessageType.PONG)) as [_|Hbad];
    [|contradiction].
  unfold handlePong in Hh.
  assert (Hst1 : peers st1 = alter (λ peer, mkPeerInfo (address peer)
                    (port peer) (nickname peer) (env_now e) (hopCount peer))
                    from (peers st)
                 /\ connections st1 = connections st
                 /\ isRunning st1 = true).
  { injection Hh as <- _. auto. }
  destruct Hst1 as (Hp1 & Hc1 & Hr1).
  assert (Hlook : peers st1 !! from
                  = Some (mkPeerInfo (address peer) (port peer)
                            (nickname peer) (env_now e) (hopCount peer))).
  { rewrite Hp1, lookup_alter_eq, Hpeer. reflexivity. }
  split; [exact Hlook|].
  destruct (sweep_lookup st1 now Hr1) as [Hp Hc].
  split.
  - rewrite Hp, Hlook. cbn [lastSeen].
    destruct (decide _); [lia | reflexivity].
  - rewrite Hc, Hlook, Hc1. cbn [lastSeen].
    destruct (decide _); [lia | reflexivity].
Qed.

(** X14. [stop] destroys the socket of every connection, closes the
    server if there is one, empties the connection table and clears the
    running flag; it tells the application nothing and leaves the registry
    as it was, and from then on the stale sweep does nothing. *)
Theorem stop_effects (st : P2PNetworkManager) :
  connections (stop st).1 = ∅
  /\ isRunning (stop st).1 = false
  /\ server (stop st).1 = false
  /\ peers (stop st).1 = peers st
  /\ (∀ ev, ev ∈ (stop st).2 <->
        (∃ k s, ev = SocketDestroy k s /\ connections st !! k = Some s)
        \/ (ev = ServerClose /\ server st = true))
  /\ NoDup (stop st).2
  /\ (∀ now, cleanup (stop st).1 now = ((stop st).1, [])).
Proof.
  unfold stop. cbn [fst snd].
  split; [reflexivity|]. split; [reflexivity|]. split; [reflexivity|].
  split; [reflexivity|]. split; [|split; [|reflexivity]].
  - intros ev. rewrite elem_of_app, list_elem_of_fmap. split.
    + intros [([k s] & -> & Hin)|Hsrv].
      * left. exists k, s. split; [reflexivity|].
        now apply elem_of_map_to_list in Hin.
      * right. destruct (server st); [|inversion Hsrv].
        apply list_elem_of_singleton in Hsrv. auto.
    + intros [(k & s & -> & Hks)|[-> Hsrv]].
      * left. exists (k, s). split; [reflexivity|].
        now apply elem_of_map_to_list.
      * right. rewrite Hsrv. left.
  - apply NoDup_app. split; [|split].
    + apply NoDup_fmap_2; [|apply NoDup_map_to_list].
      intros [k1 s1] [k2 s2] [= -> ->]. reflexivity.
    + intros ev Hev Hsrv. apply list_elem_of_fmap in Hev as ([k s] & -> & _).
      destruct (server st); [|inversion Hsrv].
      apply list_elem_of_singleton in Hsrv. discriminate Hsrv.
    + destruct (server st); [apply NoDup_singleton | apply NoDup_nil_2].
Qed.

End Lifecycle.

Section Api.
Context `{Platform}.

(** X15. A dial that connects registers the peer under its key in both
    tables, with the socket and a fresh record, and touches no other key.
    When the announcement fits a message it is the one write on the new
    socket, a PEER_ANNOUNCEMENT with [ttl] 1, and the application is told
    of the peer after it; when the announcement exceeds 65535 bytes the
    constructor throws, nothing is written and the application is never
    told, yet the peer stays registered.  Either way a later
    [connectToPeer] to the same address and port does nothing and resolves
    to true. *)
Theorem connect_registers (st : P2PNetworkManager) (e e' : env)
    (address : string) (port : Z) (s : socket) (d : dial) :
  connections (onConnect st e address port s).1 !! peer_key address port
  = Some s
  /\ peers (onConnect st e address port s).1 !! peer_key address port
     = Some (PeerInfo_new address port (env_now e))
  /\ (∀ k, k ≠ peer_key address port ->
        connections (onConnect st e address port s).1 !! k
        = connections st !! k
        /\ peers (onConnect st e address port s).1 !! k = peers st !! k)
  /\ (Z.of_nat (length (encodeAnnouncement (node_nickname st) (env_now e)))
      <= 65535 ->
      ∃ data,
        frame (mkMessage MessageType.PEER_ANNOUNCEMENT 1
                 (generateMessageId (env_now e) (env_rnd e) [])
                 (encodeAnnouncement (node_nickname st) (env_now e)))
        = Normal data
        /\ (onConnect st e address port s).2
           = [SocketWrite (peer_key address port) s data;
              OnPeerJoined (PeerInfo_new address port (env_now e))])
  /\ (65535
      < Z.of_nat (length (encodeAnnouncement (node_nickname st) (env_now e)))
      -> (onConnect st e address port s).2 = [])
  /\ connectToPeer (onConnect st e address port s).1 e' address port d
     = ((onConnect st e address port s).1, [], Normal true).
Proof.
  destruct (onConnect_tables st e address port s) as [Hc Hp].
  split; [rewrite Hc; apply lookup_insert_eq|].
  split; [rewrite Hp; apply lookup_insert_eq|].
  split.
  { intros k Hk. rewrite Hc, Hp, !lookup_insert_ne by congruence. tauto. }
  split; [|split].
  - intros Hfits. unfold onConnect, sendPeerAnnouncement,
      createPeerAnnouncement. cbn [node_nickname with_peers with_connections].
    rewrite Message_new_ok by lia.
    change (Normal ?a ≫= ?k) with (k a). cbv beta.
    rewrite frame_eq by (unfold payload_length; cbn [payload]; lia).
    eexists. split; reflexivity.
  - intros Hbig. unfold onConnect, sendPeerAnnouncement,
      createPeerAnnouncement. cbn [node_nickname with_peers with_connections].
    destruct (Message_new_throws MessageType.PEER_ANNOUNCEMENT 1
                (generateMessageId (env_now e) (env_rnd e) [])
                (encodeAnnouncement (node_nickname st) (env_now e)))
      as [err ->]; [lia | reflexivity].
  - unfold connectToPeer. rewrite Hc, lookup_insert_eq.
    destruct (decide (is_Some (Some s))) as [_|Hno]; [reflexivity|].
    exfalso. apply Hno. eauto.
Qed.

(** One pass of [forwardMessage] that excludes nobody. *)
Lemma writes_to_broadcast (l : list (string * socket)) (data : list byte)
    (exclude : option string) (k : string) :
  exclude = None ->
  NoDup l.*1 ->
  writes_to k ((λ kv : string * socket, SocketWrite kv.1 kv.2 data)
                 <$> filter (λ kv : string * socket, Some kv.1 ≠ exclude) l)
  = if decide (k ∈ l.*1) then [data] else [].
Proof.
  intros Hex. induction l as [|[k' s] l IH]; intros Hnd.
  - cbn. destruct (decide _) as [Hin|_]; [inversion Hin | reflexivity].
  - rewrite fmap_cons in Hnd. apply NoDup_cons in Hnd as [Hk' Hnd].
    specialize (IH Hnd).
    rewrite filter_cons_True by (rewrite Hex; discriminate).
    rewrite fmap_cons. cbn [writes_to omap list_omap fst snd].
    change (list_omap ?f ?t) with (omap f t).
    fold (writes_to k
            ((λ kv : string * socket, SocketWrite kv.1 kv.2 data)
               <$> filter (λ kv : string * socket, Some kv.1 ≠ exclude) l)).
    rewrite IH. cbn [fmap list_fmap fst].
    destruct (decide (k' = k)) as [->|Hne].
    + destruct (decide (k ∈ l.*1)) as [Hin|_]; [contradiction|].
      destruct (decide (k ∈ k :: l.*1)) as [_|Hno]; [reflexivity|].
      exfalso. apply Hno. left.
    + destruct (decide (k ∈ l.*1)) as [Hin|Hout].
      * destruct (decide (k ∈ k' :: l.*1)) as [_|Hno]; [reflexivity|].
        exfalso. apply Hno. now right.
      * destruct (decide (k ∈ k' :: l.*1)) as [Hin|_]; [|reflexivity].
        apply elem_of_cons in Hin as [?|?]; [congruence | contradiction].
Qed.

Lemma filter_all (l : list (string * socket)) (exclude : option string) :
  exclude = None ->
  filter (λ kv : string * socket, Some kv.1 ≠ exclude) l = l.
Proof.
  intros Hex. induction l as [|kv l IH]; [reflexivity|].
  rewrite filter_cons_True by (rewrite Hex; discriminate). now rewrite IH.
Qed.

(** X16. [sendMessage] with a [ttl] in 0..7 and a text of at most 65535
    encoded bytes writes the frame of one new CHAT_MESSAGE, carrying that
    [ttl] and the encoded text, once to every connection, then hands the
    text to the application as the node's own; the node itself, its
    duplicate cache included, is left as it was.  With any other [ttl] or
    a longer text it throws before anything is written or shown. *)
Theorem sendMessage_outcome (st : P2PNetworkManager) (e : env)
    (text : string) (l : Z) :
  (0 <= l <= 7 /\ Z.of_nat (length (encodeText text)) <= 65535 ->
   ∃ data trace,
     frame (mkMessage MessageType.CHAT_MESSAGE l
              (generateMessageId (env_now e) (env_rnd e) (charCodes text))
              (encodeText text)) = Normal data
     /\ sendMessage st e text l = Normal (st, trace)
     /\ (∀ k, writes_to k trace
              = if decide (is_Some (connections st !! k)) then [data]
                else [])
     /\ last trace = Some (OnMessage (node_nickname st) text true)
     /\ length trace = S (size (connections st)))
  /\ (l < 0 \/ 7 < l \/ 65535 < Z.of_nat (length (encodeText text)) ->
      ∃ err, sendMessage st e text l = Throw err).
Proof.
  split.
  - intros [Hl Hp]. unfold sendMessage, createChatMessage.
    rewrite Message_new_ok by lia.
    change (Normal ?a ≫= ?k) with (k a). cbv beta.
    unfold broadcastMessage, forwardMessage.
    rewrite frame_eq by (unfold payload_length; cbn [payload]; lia).
    change (Normal ?a ≫= ?k) with (k a). cbv beta.
    eexists _, _. split; [reflexivity|]. split; [reflexivity|].
    split; [|split].
    + intros k. rewrite writes_to_app.
      rewrite (writes_to_broadcast _ _ None)
        by (reflexivity || apply NoDup_fst_map_to_list).
      cbn. rewrite app_nil_r.
      assert (Hdom : k ∈ (map_to_list (connections st)).*1
                     <-> is_Some (connections st !! k)).
      { rewrite list_elem_of_fmap. split.
        - intros ([k' s] & -> & Hin). apply elem_of_map_to_list in Hin. eauto.
        - intros [s Hs]. exists (k, s). split; [reflexivity|].
          now apply elem_of_map_to_list. }
      destruct (decide (k ∈ _)); destruct (decide (is_Some _));
        try reflexivity; tauto.
    + apply last_snoc.
    + rewrite length_app, length_fmap. cbn [length].
      rewrite (filter_all _ None) by reflexivity.
      rewrite length_map_to_list. lia.
  - intros Hbad. unfold sendMessage, createChatMessage.
    destruct (Message_new_throws MessageType.CHAT_MESSAGE l
                (generateMessageId (env_now e) (env_rnd e) (charCodes text))
                (encodeText text) Hbad) as [err ->].
    eauto.
Qed.



(** X18. A chat message is shown under the sender's announced nickname:
    once a PEER_ANNOUNCEMENT with a non-empty nickname from a registered
    peer has been handled, the registry holds that nickname and a fresh
    last-seen time for the peer, and the next chat message from it reaches
    the application with the nickname as sender; from a registered peer
    without a nickname it reaches the application with the peer's key as
    sender. *)
Theorem announced_nickname_shown (st : P2PNetworkManager) (e1 e2 : env)
    (ann c : Message) (from : string) (peer : PeerInfo) (nick : string) :
  valid ann -> valid c ->
  msgType ann = MessageType.PEER_ANNOUNCEMENT ->
  msgType c = MessageType.CHAT_MESSAGE ->
  peers st !! from = Some peer ->
  decodeNickname (payload ann) = Some nick -> nick ≠ "" ->
  (isDuplicate (msgId ann) (messageCache st)).1 = false ->
  (isDuplicate (msgId c) (isDuplicate (msgId ann) (messageCache st)).2).1
  = false ->
  (∃ st1 tr1 st2 rest,
     onMessageDecoded st e1 ann from = Normal (st1, tr1)
     /\ peers st1 !! from
        = Some (mkPeerInfo (address peer) (port peer) (Some nick)
                  (env_now e1) (hopCount peer))
     /\ onMessageDecoded st1 e2 c from
        = Normal (st2, OnMessage nick (decodeText (payload c)) false :: rest))
  /\ (nickname peer = None ->
      (isDuplicate (msgId c) (messageCache st)).1 = false ->
      ∃ st2 rest,
        onMessageDecoded st e2 c from
        = Normal (st2, OnMessage from (decodeText (payload c)) false :: rest)).
Proof.
  intros Hva Hvc Hta Htc Hpeer Hnick Hne Hnewa Hnewc.
  assert (Hchat : ∀ st0 : P2PNetworkManager,
    match messageHandlers (msgType c) with
    | Some handler => handler st0 e2 c from
    | None => Normal (st0, [])
    end = handleChatMessage st0 e2 c from).
  { intros st0. rewrite Htc. reflexivity. }
  split.
  - set (st0 := with_cache (isDuplicate (msgId ann) (messageCache st)).2 st).
    destruct (handleMessage_effects st0 e1 ann from Hva)
      as (st1 & tr1 & tr2 & Hrun & Hh & _).
    assert (Hst1 : st1 = with_peers
                     (<[from := mkPeerInfo (address peer) (port peer)
                                  (Some nick) (env_now e1) (hopCount peer)]>
                        (peers st)) st0).
    { rewrite Hta in Hh.
      change (messageHandlers MessageType.PEER_ANNOUNCEMENT)
        with (Some handlePeerAnnouncement) in Hh.
      unfold handlePeerAnnouncement in Hh.
      change (peers st0) with (peers st) in Hh.
      rewrite Hpeer, Hnick in Hh. now injection Hh as <- _. }
    assert (Hlook : peers st1 !! from
                    = Some (mkPeerInfo (address peer) (port peer) (Some nick)
                              (env_now e1) (hopCount peer))).
    { rewrite Hst1. apply lookup_insert_eq. }
    assert (Hcache1 : messageCache st1
                      = (isDuplicate (msgId ann) (messageCache st)).2).
    { rewrite Hst1. reflexivity. }
    set (st1' := with_cache (isDuplicate (msgId c) (messageCache st1)).2 st1).
    destruct (handleMessage_effects st1' e2 c from Hvc)
      as (st2 & tr1' & tr2' & Hrun' & Hh' & _).
    rewrite Hchat in Hh'. unfold handleChatMessage in Hh'.
    change (peers st1') with (peers st1) in Hh'.
    rewrite Hlook in Hh'. cbn [mbind option_bind nickname] in Hh'.
    destruct (decide (nick = "")) as [|_]; [contradiction|].
    injection Hh' as <- <-.
    exists st1, (tr1 ++ tr2), st1', tr2'.
    split; [|split; [exact Hlook|]].
    + unfold onMessageDecoded. rewrite Hnewa. exact Hrun.
    + unfold onMessageDecoded. rewrite Hcache1, Hnewc.
      rewrite <- Hcache1. exact Hrun'.
  - intros Hnone Hnewc'. unfold onMessageDecoded. rewrite Hnewc'.
    set (st0 := with_cache _ st).
    destruct (handleMessage_effects st0 e2 c from Hvc)
      as (st2 & tr1' & tr2' & Hrun' & Hh' & _).
    rewrite Hchat in Hh'. unfold handleChatMessage in Hh'.
    change (peers st0) with (peers st) in Hh'.
    rewrite Hpeer in Hh'. cbn in Hh'. rewrite Hnone in Hh'.
    injection Hh' as <- <-.
    exists st0, tr2'. exact Hrun'.
Qed.

End Api.

Section FurtherExamples.

#[local] Existing Instance example_platform.

Lemma split_frame_delivery_witness :
  onData example_node (λ _, example_env) []
    [x00; x00; x00; x0a; x05] "10.0.0.2:40001"
  = (example_node, [], [x00; x00; x00; x0a; x05])
  /\ ∃ r,
       onMessageDecoded example_node example_env
         (mkMessage MessageType.CHAT_MESSAGE 3 77 [x68; x69]) "10.0.0.2:40001"
       = Normal r
       /\ onData example_node (λ _, example_env)
            [x00; x00; x00; x0a; x05]
            [x03; x00; x00; x00; x4d; x00; x02; x68; x69] "10.0.0.2:40001"
          = (r, [])
       /\ onData example_node (λ _, example_env) []
            ([x00; x00; x00; x0a; x05]
             ++ [x03; x00; x00; x00; x4d; x00; x02; x68; x69])
            "10.0.0.2:40001"
          = (r, []).
Proof.
  apply (split_frame_delivery example_node (λ _, example_env)
           (λ _, example_env)
           (mkMessage MessageType.CHAT_MESSAGE 3 77 [x68; x69])).
  - unfold valid, payload_length. simpl. lia.
  - unfold fits_wire, MessageType.CHAT_MESSAGE. simpl. lia.
  - vm_compute. reflexivity.
  - discriminate.
Defined.

Lemma malformed_frame_skipped_witness :
  onData example_node (λ _, example_env) []
    (with_prefix [xff]
     ++ [x00; x00; x00; x08; x01; x01; x00; x00; x00; x4d; x00; x00])
    "10.0.0.2:40001"
  = onData example_node (λ _, example_env) []
      [x00; x00; x00; x08; x01; x01; x00; x00; x00; x4d; x00; x00]
      "10.0.0.2:40001".
Proof.
  apply (malformed_frame_skipped example_node (λ _, example_env) [xff]).
  - reflexivity.
  - vm_compute. reflexivity.
Defined.

Lemma stale_sweep_witness :
  peers (cleanup example_node 1762153537001).1 !! "10.0.0.2:40001" = None
  /\ connections (cleanup example_node 1762153537001).1 !! "10.0.0.2:40001"
     = None.
Proof.
  destruct (stale_sweep example_node 1762153537001) as (Hp & Hc & _);
    [reflexivity|].
  split.
  - rewrite Hp. vm_compute. reflexivity.
  - rewrite Hc. vm_compute. reflexivity.
Defined.

Lemma chat_does_not_refresh_witness :
  ∃ st1 tr,
    onMessageDecoded example_node example_env
      (mkMessage MessageType.CHAT_MESSAGE 3 77 [x68; x69]) "10.0.0.2:40001"
    = Normal (st1, tr)
    /\ peers st1 = peers example_node
    /\ peers (cleanup st1 1762153537001).1 !! "10.0.0.2:40001" = None
    /\ connections (cleanup st1 1762153537001).1 !! "10.0.0.2:40001" = None
    /\ OnPeerLeft (mkPeerInfo "10.0.0.2" 40001 None 1762153237000 1)
       ∈ (cleanup st1 1762153537001).2.
Proof.
  destruct (onMessageDecoded example_node example_env
              (mkMessage MessageType.CHAT_MESSAGE 3 77 [x68; x69])
              "10.0.0.2:40001") as [[st1 tr]|err] eqn:Hrun;
    [|vm_compute in Hrun; discriminate Hrun].
  exists st1, tr. split; [reflexivity|].
  apply (chat_does_not_refresh example_node st1 example_env
           (mkMessage MessageType.CHAT_MESSAGE 3 77 [x68; x69])
           "10.0.0.2:40001" tr).
  - intros Hty. vm_compute in Hty. discriminate Hty.
  - intros Hty. vm_compute in Hty. discriminate Hty.
  - exact Hrun.
  - vm_compute. reflexivity.
  - simpl. lia.
  - reflexivity.
Defined.

Lemma pong_refreshes_witness :
  ∃ st1 tr,
    onMessageDecoded example_node (mkEnv 1762153238000 1)
      (mkMessage MessageType.PONG 1 99 []) "10.0.0.2:40001"
    = Normal (st1, tr)
    /\ peers st1 !! "10.0.0.2:40001"
       = Some (mkPeerInfo "10.0.0.2" 40001 None 1762153238000 1)
    /\ peers (cleanup st1 1762153537001).1 !! "10.0.0.2:40001"
       = peers st1 !! "10.0.0.2:40001".
Proof.
  destruct (onMessageDecoded example_node (mkEnv 1762153238000 1)
              (mkMessage MessageType.PONG 1 99 [])
              "10.0.0.2:40001") as [[st1 tr]|err] eqn:Hrun;
    [|vm_compute in Hrun; discriminate Hrun].
  exists st1, tr. split; [reflexivity|].
  destruct (pong_refreshes example_node st1 (mkEnv 1762153238000 1)
              (mkMessage MessageType.PONG 1 99 []) "10.0.0.2:40001" tr
              (mkPeerInfo "10.0.0.2" 40001 None 1762153237000 1)
              1762153537001) as (Hseen & Hkept & _).
  - reflexivity.
  - reflexivity.
  - exact Hrun.
  - vm_compute. reflexivity.
  - simpl. lia.
  - reflexivity.
  - split; [exact Hseen | exact Hkept].
Defined.


Lemma disconnect_once_witness :
  connections (handlePeerDisconnect example_node "10.0.0.2:40001").1
    !! "10.0.0.3:40002"
  = connections example_node !! "10.0.0.3:40002"
  /\ peers (handlePeerDisconnect example_node "10.0.0.2:40001").1
       !! "10.0.0.3:40002"
     = peers example_node !! "10.0.0.3:40002".
Proof.
  destruct (disconnect_once example_node "10.0.0.2:40001")
    as (_ & _ & Hother & _).
  apply Hother. discriminate.
Defined.

Lemma connect_registers_witness :
  ∃ data,
    frame (mkMessage MessageType.PEER_ANNOUNCEMENT 1
             (generateMessageId 1762153237000 12345 []) [x6d; x65])
    = Normal data
    /\ (onConnect example_node example_env "10.0.0.4" 40003 2%nat).2
       = [SocketWrite "10.0.0.4:40003" 2%nat data;
          OnPeerJoined (PeerInfo_new "10.0.0.4" 40003 1762153237000)].
Proof.
  destruct (connect_registers example_node example_env example_env
              "10.0.0.4" 40003 2%nat Failed)
    as (_ & _ & _ & Hfits & _).
  apply Hfits. vm_compute. discriminate.
Defined.

Lemma sendMessage_outcome_witness :
  ∃ data trace,
    frame (mkMessage MessageType.CHAT_MESSAGE 3
             (generateMessageId 1762153237000 12345 [104; 105])
             [x68; x69]) = Normal data
    /\ sendMessage example_node example_env "hi" 3
       = Normal (example_node, trace)
    /\ (∀ k, writes_to k trace
             = if decide (is_Some (connections example_node !! k))
               then [data] else [])
    /\ last trace = Some (OnMessage "me" "hi" true)
    /\ length trace = S (size (connections example_node)).
Proof.
  destruct (sendMessage_outcome example_node example_env "hi" 3)
    as [Hsent _].
  apply Hsent. split; [lia|]. vm_compute. discriminate.
Defined.

End FurtherExamples.

Section AnnouncementExample.

#[local] Existing Instance announcing_platform.

Lemma announced_nickname_shown_witness :
  ∃ st1 tr1 st2 rest,
    onMessageDecoded example_node (mkEnv 1762153238000 1)
      (mkMessage MessageType.PEER_ANNOUNCEMENT 0 55 [x62; x6f; x62])
      "10.0.0.2:40001"
    = Normal (st1, tr1)
    /\ peers st1 !! "10.0.0.2:40001"
       = Some (mkPeerInfo "10.0.0.2" 40001 (Some "bob") 1762153238000 1)
    /\ onMessageDecoded st1 example_env
         (mkMessage MessageType.CHAT_MESSAGE 3 77 [x68; x69])
         "10.0.0.2:40001"
       = Normal (st2, OnMessage "bob" "hi" false :: rest).
Proof.
  destruct (announced_nickname_shown example_node (mkEnv 1762153238000 1)
              example_env
              (mkMessage MessageType.PEER_ANNOUNCEMENT 0 55 [x62; x6f; x62])
              (mkMessage MessageType.CHAT_MESSAGE 3 77 [x68; x69])
              "10.0.0.2:40001"
              (mkPeerInfo "10.0.0.2" 40001 None 1762153237000 1) "bob")
    as [Hshown _].
  - unfold valid, payload_length. simpl. lia.
  - unfold valid, payload_length. simpl. lia.
  - reflexivity.
  - reflexivity.
  - vm_compute. reflexivity.
  - reflexivity.
  - discriminate.
  - reflexivity.
  - reflexivity.
  - exact Hshown.
Defined.

End AnnouncementExample.
